(** * Cluster rate limiter on a Redis ring (ratelimit/redis.go)

    A shallow embedding of [clusterLimitRedis] and its methods, and the
    properties of the limiter's contract proved over it.

    Conventions of the embedding:
    - Go's [int64], [int] (64-bit platforms) and [time.Duration] are [Z]
      with the two's complement wrap-around written out ([wrap64]);
    - [time.Time] is the instant in nanoseconds relative to the Unix
      epoch; [UnixNano] wraps, [Sub] saturates, as package [time] does;
    - [float64] is [spec_float] (binary64, round to nearest even);
    - a Go [error] value is [option error], [None] being [nil];
    - the world outside the limiter (clock and Redis ring) is an
      arbitrary implementation of the interface [Host]; the metrics
      sink, the tracer and the logger are recorders. *)

From Stdlib Require Import ZArith Lia Ascii String DecimalString List Bool.
From Stdlib Require Import Floats.SpecFloat.
From Stdlib Require DecimalPos.
From stdpp Require Import base option gmap strings.

Local Open Scope Z_scope.
Local Open Scope string_scope.

(* ===================================================================== *)
(** * Go base types *)
(* ===================================================================== *)

Module Go.

(** ** 64-bit integers *)

Definition minInt64 : Z := - 2 ^ 63.
Definition maxInt64 : Z := 2 ^ 63 - 1.

(** The value of an [int64] expression whose mathematical value is [z]. *)
Definition wrap64 (z : Z) : Z := (z + 2 ^ 63) mod 2 ^ 64 - 2 ^ 63.

Definition in_int64 (z : Z) : Prop := minInt64 <= z <= maxInt64.

(** ** float64 *)

Definition float64 : Type := spec_float.

(** The conversion [float64(n)] of an integer. *)
Definition float64_of_int64 (n : Z) : float64 :=
  binary_normalize 53 1024 n 0 false.

(** ** errors *)

Inductive NumErrKind : Type := ErrSyntax | ErrRange.

Inductive error : Type :=
| ErrRing (msg : string)                       (* reported by the ring *)
| ErrNew (msg : string)                        (* errors.New *)
| ErrNum (fn input : string) (k : NumErrKind)  (* *strconv.NumError *)
| ErrWrap (prefix : string) (e : error).       (* fmt.Errorf("..: %w", e) *)

Definition is_err (e : option error) : bool :=
  match e with Some _ => true | None => false end.

(** ** interface{} values met in Redis replies *)

Inductive any : Type :=
| AnyNil
| AnyString (s : string)
| AnyInt64 (n : Z)
| AnyFloat64 (f : float64).

(** The type assertion [v.(string)]. *)
Definition assert_string (v : any) : string * bool :=
  match v with
  | AnyString s => (s, true)
  | _ => ("", false)
  end.

(** ** strconv *)

Definition digit_val (a : ascii) : option Z :=
  let n := Z.of_N (N_of_ascii a) in
  if ((48 <=? n) && (n <=? 57))%Z then Some (n - 48) else None.

Definition maxUint64 : Z := 2 ^ 64 - 1.

(** The loop of [strconv.ParseUint(s, 10, 64)] over the bytes left. *)
Fixpoint ParseUint_loop (rest : string) (n : Z) : Z + NumErrKind :=
  match rest with
  | EmptyString => inl n
  | String a rest' =>
      match digit_val a with
      | None => inr ErrSyntax
      | Some d =>
          if (maxUint64 / 10 + 1 <=? n)%Z then inr ErrRange
          else
            let n1 := n * 10 + d in
            if (maxUint64 <? n1)%Z then inr ErrRange
            else ParseUint_loop rest' n1
      end
  end.

Definition ParseUint (s : string) : Z * option NumErrKind :=
  match s with
  | EmptyString => (0, Some ErrSyntax)
  | _ =>
      match ParseUint_loop s 0 with
      | inl n => (n, None)
      | inr ErrSyntax => (0, Some ErrSyntax)
      | inr ErrRange => (maxUint64, Some ErrRange)
      end
  end.

(** [strconv.ParseInt(s, 10, 64)]. *)
Definition ParseInt (s0 : string) : Z * option error :=
  match s0 with
  | EmptyString => (0, Some (ErrNum "ParseInt" s0 ErrSyntax))
  | String a rest =>
      let '(neg, s) :=
        if Ascii.eqb a "+" then (false, rest)
        else if Ascii.eqb a "-" then (true, rest)
        else (false, s0) in
      let '(un, err) := ParseUint s in
      match err with
      | Some ErrSyntax => (0, Some (ErrNum "ParseInt" s0 ErrSyntax))
      | _ =>
          let cutoff := 2 ^ 63 in
          if negb neg && (cutoff <=? un)%Z
          then (cutoff - 1, Some (ErrNum "ParseInt" s0 ErrRange))
          else if neg && (cutoff <? un)%Z
          then (- cutoff, Some (ErrNum "ParseInt" s0 ErrRange))
          else (if neg then - un else un, None)
      end
  end.

(** ** fmt.Sprintf, for formats whose only verb is [%s] *)

Fixpoint Sprintf (format : string) (args : list string) : string :=
  match format with
  | String "%" (String "s" rest) =>
      match args with
      | a :: args' => a ++ Sprintf rest args'
      | [] => "%!s(MISSING)" ++ Sprintf rest []
      end
  | String ch rest => String ch (Sprintf rest args)
  | EmptyString => EmptyString
  end.

End Go.

(* ===================================================================== *)
(** * Package time *)
(* ===================================================================== *)

Module time.
Import Go.

(** A duration is an [int64] count of nanoseconds. *)
Definition Duration : Type := Z.

Definition Nanosecond : Duration := 1.
Definition Millisecond : Duration := 1000000.
Definition Second : Duration := 1000000000.

Definition minDuration : Duration := minInt64.
Definition maxDuration : Duration := maxInt64.

(** Arithmetic on durations is [int64] arithmetic. *)
Definition dneg (d : Duration) : Duration := wrap64 (- d).
Definition dadd (a b : Duration) : Duration := wrap64 (a + b).
Definition dsub (a b : Duration) : Duration := wrap64 (a - b).
(** [a / b] truncates toward zero. *)
Definition ddiv (a b : Duration) : Duration := wrap64 (Z.quot a b).

(** An instant, in nanoseconds since January 1, 1970 UTC. The instants
    of [time.Time] lie within some 292 billion years of year 1, where
    [Add] is exact. *)
Definition Time : Type := Z.

(** Seconds from January 1, year 1 to the Unix epoch. *)
Definition unixToInternal : Z := (1969 * 365 + 1969 / 4 - 1969 / 100 + 1969 / 400) * 86400.

(** [time.Time{}]: January 1, year 1, 00:00:00 UTC. *)
Definition zeroTime : Time := - unixToInternal * 1000000000.

(** [time.Unix(0, nsec)]. *)
Definition Unix0 (nsec : Z) : Time := nsec.

(** [t.UnixNano()]: computed in [int64], so it wraps outside the years
    1678 to 2262. *)
Definition UnixNano (t : Time) : Z := wrap64 t.

(** [t.Add(d)]. *)
Definition Add (t : Time) (d : Duration) : Time := t + d.

(** [t.Sub(u)]: the difference, or the extreme duration on its side
    when the difference does not fit. *)
Definition Sub (t u : Time) : Duration :=
  let d := t - u in
  if (maxDuration <? d)%Z then maxDuration
  else if (d <? minDuration)%Z then minDuration
  else d.

End time.

(* ===================================================================== *)
(** * The collaborators of the limiter *)
(* ===================================================================== *)

(** ** context.Context *)

Module context.

(** What the limiter and the ring can see of a context: the parent span
    it carries, if any, and whether it is cancelled. *)
Record Ctx : Type := mkCtx { parentSpan : option nat; cancelled : bool }.

(** A context value; [None] is the nil interface. *)
Definition Context : Type := option Ctx.

(** [context.Background()]: no values, never cancelled. *)
Definition Background : Context :=
  Some {| parentSpan := None; cancelled := false |}.

End context.

(** ** github.com/go-redis/redis/v8 *)

Module redis.
Import Go time.

(** [redis.Z], a member of a sorted set with its score. *)
Record Z_ : Type := mkZ { Score : float64; Member : any }.

Record ZRangeBy : Type :=
  mkZRangeBy { Min : string; Max : string; Offset : Z; Count : Z }.

(** The command values, each with [Val()] and [Err()]. *)
Record IntCmd : Type := mkIntCmd { int_val : Z; int_err : option error }.
Record BoolCmd : Type := mkBoolCmd { bool_val : bool; bool_err : option error }.
Record ZSliceCmd : Type :=
  mkZSliceCmd { zs_val : list Z_; zs_err : option error }.

(** [cmd.Result()]. *)
Definition Result (cmd : ZSliceCmd) : list Z_ * option error :=
  (zs_val cmd, zs_err cmd).

(** A command sent to the ring, with what the ring answered. *)
Inductive Call : Type :=
| CallZRemRangeByScore (key min max : string) (res : IntCmd)
| CallZCard (key : string) (res : IntCmd)
| CallZAdd (key : string) (z : Z_) (res : IntCmd)
| CallExpire (key : string) (ttl : Duration) (res : BoolCmd)
| CallZRangeByScoreWithScores (key : string) (opt : ZRangeBy) (res : ZSliceCmd).

Definition call_err (c : Call) : option error :=
  match c with
  | CallZRemRangeByScore _ _ _ r | CallZCard _ r | CallZAdd _ _ r => int_err r
  | CallExpire _ _ r => bool_err r
  | CallZRangeByScoreWithScores _ _ r => zs_err r
  end.

Definition is_ZAdd (c : Call) : bool :=
  match c with CallZAdd _ _ _ => true | _ => false end.

End redis.

Import Go time context redis.

(** ** The clock and the ring

    Whatever implements the wall clock and the Redis ring: each
    operation takes the state of the outside world and returns its
    answer with the next state. Nothing is assumed of the answers. *)

Class Host (E : Type) : Type := {
  host_Now : E -> Time * E;
  host_ZRemRangeByScore : Context -> string -> string -> string -> E -> IntCmd * E;
  host_ZCard : Context -> string -> E -> IntCmd * E;
  host_ZAdd : Context -> string -> Z_ -> E -> IntCmd * E;
  host_Expire : Context -> string -> Duration -> E -> BoolCmd * E;
  host_ZRangeByScoreWithScores : Context -> string -> ZRangeBy -> E -> ZSliceCmd * E
}.

(** ** What the limiter uses and the sources do not show *)

Class Externals : Type := {
  (** [getHashedKey], the digest of the client key. *)
  getHashedKey : string -> string;
  (** [swarmKeyFormat], a format with two [%s] verbs. *)
  swarmKeyFormat : string;
  (** [fmt.Sprint] of a [float64]. *)
  Sprint_float64 : float64 -> string
}.

(** ** Tracing and logging records *)

Record Span : Type := mkSpan {
  span_name : string;
  span_parent : nat;
  span_component : string;
  span_kind : string;
  span_group : string;
  span_max_hits : Z;
  span_window : Duration;     (* the tag holds [window.String()] *)
  span_error : bool
}.

Inductive Level : Type := LvlDebug | LvlInfo | LvlError.

(** ** The world a call runs in *)

Record World (E : Type) : Type := mkWorld {
  host : E;                          (* clock and ring *)
  calls : list Call;                 (* commands sent to the ring, oldest first *)
  counters : gmap string nat;        (* metrics.IncCounter *)
  timers : list (string * Time);     (* metrics.MeasureSince: key and start *)
  spans : list Span;                 (* finished spans *)
  logs : list (Level * string)       (* level and format of each log line *)
}.

Arguments mkWorld {E}.
Arguments host {E}.
Arguments calls {E}.
Arguments counters {E}.
Arguments timers {E}.
Arguments spans {E}.
Arguments logs {E}.

(** ** The state monad of a call *)

Definition M (E A : Type) : Type := World E -> A * World E.

#[global] Instance M_ret {E} : MRet (M E) := fun A a w => (a, w).

#[global] Instance M_bind {E} : MBind (M E) :=
  fun A B k m w => let '(a, w') := m w in k a w'.

Section Effects.
Context {E : Type} `{Host E}.

(** The ring answered the command [c] and the world outside moved to [h]. *)
Definition with_host (w : World E) (h : E) (c : Call) : World E :=
  mkWorld h (calls w ++ [c]) (counters w) (timers w) (spans w) (logs w).

(** [time.Now()]. *)
Definition time_Now : M E Time :=
  fun w => let '(t, h) := host_Now (host w) in
         (t, mkWorld h (calls w) (counters w) (timers w) (spans w) (logs w)).

(** The methods of [c.ring]. *)
Definition ring_ZRemRangeByScore (ctx : Context) (key min max : string) : M E IntCmd :=
  fun w => let '(r, h) := host_ZRemRangeByScore ctx key min max (host w) in
           (r, with_host w h (CallZRemRangeByScore key min max r)).

Definition ring_ZCard (ctx : Context) (key : string) : M E IntCmd :=
  fun w => let '(r, h) := host_ZCard ctx key (host w) in
           (r, with_host w h (CallZCard key r)).

Definition ring_ZAdd (ctx : Context) (key : string) (z : Z_) : M E IntCmd :=
  fun w => let '(r, h) := host_ZAdd ctx key z (host w) in
           (r, with_host w h (CallZAdd key z r)).

Definition ring_Expire (ctx : Context) (key : string) (ttl : Duration) : M E BoolCmd :=
  fun w => let '(r, h) := host_Expire ctx key ttl (host w) in
           (r, with_host w h (CallExpire key ttl r)).

Definition ring_ZRangeByScoreWithScores (ctx : Context) (key : string)
    (opt : ZRangeBy) : M E ZSliceCmd :=
  fun w => let '(r, h) := host_ZRangeByScoreWithScores ctx key opt (host w) in
           (r, with_host w h (CallZRangeByScoreWithScores key opt r)).

(** The value of a counter of the metrics sink. *)
Definition counter (w : World E) (key : string) : nat :=
  default 0%nat (counters w !! key).

(** [c.metrics.IncCounter(key)]. *)
Definition IncCounter (key : string) : M E unit :=
  fun w => (tt, mkWorld (host w) (calls w) (<[key := S (counter w key)]> (counters w))
                        (timers w) (spans w) (logs w)).

(** [c.metrics.MeasureSince(key, start)]. *)
Definition MeasureSince (key : string) (start : Time) : M E unit :=
  fun w => (tt, mkWorld (host w) (calls w) (counters w)
                        (timers w ++ [(key, start)]) (spans w) (logs w)).

(** [span.Finish()]. *)
Definition FinishSpan (s : Span) : M E unit :=
  fun w => (tt, mkWorld (host w) (calls w) (counters w) (timers w)
                        (spans w ++ [s]) (logs w)).

(** [log.Debugf], [log.Errorf]. *)
Definition Logf (lvl : Level) (format : string) : M E unit :=
  fun w => (tt, mkWorld (host w) (calls w) (counters w) (timers w)
                        (spans w) (logs w ++ [(lvl, format)])).

End Effects.

(* ===================================================================== *)
(** * clusterLimitRedis *)
(* ===================================================================== *)

(** The fields of the limiter that are data. Its [ring], [metrics] and
    [tracer] fields are references to the shared ring, sink and tracer,
    whose state is in the [World]. *)
Record clusterLimitRedis : Type := mkLimiter {
  group : string;
  maxHits : Z;
  window : Duration
}.

Definition redisMetricsPrefix : string := "swarm.redis.".
Definition allowMetricsFormat : string := redisMetricsPrefix ++ "query.allow.%s".
Definition retryAfterMetricsFormat : string := redisMetricsPrefix ++ "query.retryafter.%s".
Definition allowMetricsFormatWithGroup : string :=
  redisMetricsPrefix ++ "query.allow.%s.%s".
Definition retryAfterMetricsFormatWithGroup : string :=
  redisMetricsPrefix ++ "query.retryafter.%s.%s".

Definition allowAddSpanName : string := "redis_allow_add_card".
Definition allowExpireSpanName : string := "redis_allow_expire".
Definition allowCheckSpanName : string := "redis_allow_check_card".
Definition allowCheckRemRangeSpanName : string := "redis_allow_check_rem_range".
Definition oldestScoreSpanName : string := "redis_oldest_score".

Section Limiter.
Context {E : Type} `{Host E} `{Externals}.

Implicit Types (c : clusterLimitRedis) (ctx : Context) (w : World E).

Definition prefixKey c (clearText : string) : string :=
  Sprintf swarmKeyFormat [group c; clearText].

(** [fail] is the [*bool] argument: [None] for a nil pointer, else the
    value it points to when the call runs. *)
Definition measureQuery c (format groupFormat : string) (fail : option bool)
    (start : Time) : M E unit :=
  let result :=
    match fail with
    | Some true => "failure"
    | _ => "success"
    end in
  let key :=
    if String.eqb (group c) "" then Sprintf format [result]
    else Sprintf groupFormat [result; group c] in
  MeasureSince key start.

(** The closure returned finishes the span, if one was started. *)
Definition startSpan c ctx (spanName : string) : M E (bool -> M E unit) :=
  let nop : bool -> M E unit := fun _ => mret tt in
  match ctx with
  | None => mret nop
  | Some cx =>
      match parentSpan cx with
      | None => mret nop
      | Some parent =>
          mret (fun failed : bool =>
                  FinishSpan (mkSpan spanName parent "skipper" "client"
                                     (group c) (maxHits c) (window c) failed))
      end
  end.

Definition allowCheckCard c ctx (key : string) (clearBefore : Z)
    : M E (Z * option error) :=
  finishSpan ← startSpan c ctx allowCheckRemRangeSpanName;
  zremRangeResult ←
    ring_ZRemRangeByScore ctx key "0.0"
      (Sprint_float64 (float64_of_int64 clearBefore));
  let err := int_err zremRangeResult in
  finishSpan (is_err err);;
  match err with
  | Some e => mret (0, Some (ErrWrap "zremrangebyscore" e))
  | None =>
      finishSpan ← startSpan c ctx allowCheckSpanName;
      zcardResult ← ring_ZCard ctx key;
      let err := int_err zcardResult in
      finishSpan (is_err err);;
      match err with
      | Some e => mret (0, Some (ErrWrap "zcard" e))
      | None => mret (int_val zcardResult, None)
      end
  end.

(** The body of [AllowContext] after the [defer]: the value returned
    and [queryFailure] as it stands on return. *)
Definition AllowContext_body c ctx (key : string) (now : Time)
    : M E (bool * bool) :=
  let nowNanos := UnixNano now in
  let clearBefore := UnixNano (Add now (dneg (window c))) in
  '(count, err) ← allowCheckCard c ctx key clearBefore;
  queryFailure ←
    match err with
    | Some _ => Logf LvlError "Failed to get redis cardinality: %v";; mret true
    | None => mret false
    end;
  if negb (is_err err) && (maxHits c <=? count)%Z then
    IncCounter (redisMetricsPrefix ++ "forbids");;
    Logf LvlDebug "redis disallow request: %d >= %d = %v";;
    mret (false, queryFailure)
  else
    finishSpan ← startSpan c ctx allowAddSpanName;
    zaddResult ←
      ring_ZAdd ctx key (mkZ (float64_of_int64 nowNanos) (AnyInt64 nowNanos));
    let err := int_err zaddResult in
    finishSpan (is_err err);;
    queryFailure ←
      match err with
      | Some _ => Logf LvlError "Failed to ZAdd proceeding with Expire: %v";; mret true
      | None => mret queryFailure
      end;
    finishSpan ← startSpan c ctx allowExpireSpanName;
    expireResult ← ring_Expire ctx key (dadd (window c) Second);
    let err := bool_err expireResult in
    finishSpan (is_err err);;
    match err with
    | Some _ => Logf LvlError "Failed to Expire: %v";; mret (true, true)
    | None =>
        IncCounter (redisMetricsPrefix ++ "allows");;
        mret (true, queryFailure)
    end.

Definition AllowContext c ctx (clearText : string) : M E bool :=
  let s := getHashedKey clearText in
  IncCounter (redisMetricsPrefix ++ "total");;
  let key := prefixKey c s in
  now ← time_Now;
  '(allowed, queryFailure) ← AllowContext_body c ctx key now;
  (* deferred *)
  measureQuery c allowMetricsFormat allowMetricsFormatWithGroup
               (Some queryFailure) now;;
  mret allowed.

Definition Allow c (clearText : string) : M E bool :=
  AllowContext c Background clearText.

Definition Close c : M E unit := mret tt.

Definition oldest c ctx (clearText : string) : M E (Time * option error) :=
  let s := getHashedKey clearText in
  let key := prefixKey c s in
  now ← time_Now;
  finishSpan ← startSpan c ctx oldestScoreSpanName;
  res ←
    ring_ZRangeByScoreWithScores ctx key
      (mkZRangeBy "0.0" (Sprint_float64 (float64_of_int64 (UnixNano now))) 0 1);
  let '(zs, err) := Result res in
  match err with
  | Some e => finishSpan true;; mret (zeroTime, Some e)
  | None =>
      match zs with
      | [] =>
          Logf LvlDebug "Oldest() got no valid data: %v";;
          finishSpan false;;
          mret (zeroTime, None)
      | z :: _ =>
          let '(s, ok) := assert_string (Member z) in
          if negb ok then
            finishSpan true;;
            mret (zeroTime, Some (ErrNew "failed to evaluate redis data"))
          else
            let '(oldest, err) := ParseInt s in
            match err with
            | Some e =>
                finishSpan true;;
                mret (zeroTime, Some (ErrWrap "failed to convert value to int64" e))
            | None =>
                finishSpan false;;
                mret (Unix0 oldest, None)
            end
      end
  end.

Definition deltaFrom c ctx (clearText : string) (from : Time)
    : M E (Duration * option error) :=
  '(oldest, err) ← oldest c ctx clearText;
  match err with
  | Some e => mret (0, Some e)
  | None =>
      let gap := Sub from oldest in
      mret (dsub (window c) gap, None)
  end.

Definition Delta c (clearText : string) : M E Duration :=
  now ← time_Now;
  '(d, err) ← deltaFrom c Background clearText now;
  match err with
  | Some _ =>
      Logf LvlError "Failed to get the duration until the next call is allowed: %v";;
      mret 0
  | None => mret d
  end.

Definition Oldest c (clearText : string) : M E Time :=
  '(t, err) ← oldest c Background clearText;
  match err with
  | Some _ =>
      Logf LvlError "Failed to get the oldest known request time: %v";;
      mret zeroTime
  | None => mret t
  end.

Definition Resize c (_ : string) (_ : Z) : M E unit := mret tt.

Definition minWait : Z := 1.

(** The body of [RetryAfterContext] after the [defer]: the value
    returned and [queryFailure] as it stands on return. *)
Definition RetryAfterContext_body c ctx (clearText : string) (now : Time)
    : M E (Z * bool) :=
  '(retr, err) ← deltaFrom c ctx clearText now;
  match err with
  | Some _ =>
      Logf LvlError "Failed to get the duration to wait with the next request: %v";;
      mret (minWait, true)
  | None =>
      let res := ddiv retr Second in
      if (0 <? res)%Z then mret (wrap64 (res + 1), false)
      else mret (minWait, false)
  end.

Definition RetryAfterContext c ctx (clearText : string) : M E Z :=
  now ← time_Now;
  '(res, queryFailure) ← RetryAfterContext_body c ctx clearText now;
  (* deferred *)
  measureQuery c retryAfterMetricsFormat retryAfterMetricsFormatWithGroup
               (Some queryFailure) now;;
  mret res.

Definition RetryAfter c (clearText : string) : M E Z :=
  RetryAfterContext c Background clearText.

End Limiter.

(* ===================================================================== *)
(** * A reference clock and ring *)
(* ===================================================================== *)

(** The ring is the Redis client library and the servers behind it;
    none of it is in the sources. [Sim] is a clock and a ring to run the
    limiter on: a store of sorted sets whose operations follow the
    RedisRing interface of the design, each of which may fail with a
    transport error that leaves the store as it was. Members are stored
    as the strings the client writes on the wire. The TTL is kept as the
    attribute set last; keys are not aged. *)
Module Sim.

Record Bucket : Type := mkBucket {
  entries : list (string * float64);     (* member and score *)
  ttl : option Duration
}.

Record State : Type := mkState {
  clock : Time;                 (* the next reading of the clock *)
  tick : Duration;              (* what each reading advances it by *)
  store : gmap string Bucket;
  faults : list (option error)  (* one per ring operation to come;
                                   [Some e] makes it fail with [e] *)
}.

(** The decimal text of an integer, [strconv.FormatInt(n, 10)]. *)
Definition FormatInt (n : Z) : string :=
  DecimalString.NilEmpty.string_of_int (Z.to_int n).

Section Ring.
Context `{Externals}.

(** How the server reads a score bound. The limiter sends ["0.0"]
    and the text of an integral [float64]. *)
Variable parseScore : string -> option float64.

(** The member as the client writes it. *)
Definition wire (v : any) : string :=
  match v with
  | AnyNil => ""
  | AnyString s => s
  | AnyInt64 n => FormatInt n
  | AnyFloat64 f => Sprint_float64 f
  end.

Definition entries_of (s : State) (key : string) : list (string * float64) :=
  match store s !! key with
  | Some b => entries b
  | None => []
  end.

Definition ttl_of (s : State) (key : string) : option Duration :=
  match store s !! key with
  | Some b => ttl b
  | None => None
  end.

(** A sorted set without members does not exist. *)
Definition put_entries (s : State) (key : string)
    (es : list (string * float64)) : gmap string Bucket :=
  match es with
  | [] => delete key (store s)
  | _ => <[key := mkBucket es (ttl_of s key)]> (store s)
  end.

Definition pop_fault (s : State) : option error * State :=
  match faults s with
  | [] => (None, s)
  | f :: fs => (f, mkState (clock s) (tick s) (store s) fs)
  end.

Definition with_store (s : State) (m : gmap string Bucket) : State :=
  mkState (clock s) (tick s) m (faults s).

Definition in_range (lo hi : float64) (e : string * float64) : bool :=
  SFleb lo (snd e) && SFleb (snd e) hi.

Definition entry_le (a b : string * float64) : bool :=
  SFltb (snd a) (snd b) || (SFeqb (snd a) (snd b) && String.leb (fst a) (fst b)).

Fixpoint insert_sorted (e : string * float64) (l : list (string * float64))
    : list (string * float64) :=
  match l with
  | [] => [e]
  | x :: l' => if entry_le e x then e :: l else x :: insert_sorted e l'
  end.

Definition sort_entries (l : list (string * float64)) : list (string * float64) :=
  foldr insert_sorted [] l.

Definition Now (s : State) : Time * State :=
  (clock s, mkState (clock s + tick s) (tick s) (store s) (faults s)).

(** Modelled from the spec: [ZAdd] of the ring, absent from the sources;
    "add (member, score) to the sorted set; duplicate member updates
    score". The answer is the number of members added. *)
Definition ZAdd (_ : Context) (key : string) (z : Z_) (s0 : State)
    : IntCmd * State :=
  let '(f, s) := pop_fault s0 in
  match f with
  | Some e => (mkIntCmd 0 (Some e), s)
  | None =>
      let m := wire (Member z) in
      let es := entries_of s key in
      let others := filter (fun e => negb (String.eqb (fst e) m)) es in
      let added := if (length others =? length es)%nat then 1 else 0 in
      (mkIntCmd added None,
       with_store s (put_entries s key (others ++ [(m, Score z)])))
  end.

(** Modelled from the spec: [ZCard] of the ring, absent from the sources;
    "return current cardinality as a 64-bit integer". *)
Definition ZCard (_ : Context) (key : string) (s0 : State) : IntCmd * State :=
  let '(f, s) := pop_fault s0 in
  match f with
  | Some e => (mkIntCmd 0 (Some e), s)
  | None => (mkIntCmd (Z.of_nat (length (entries_of s key))) None, s)
  end.

(** Modelled from the spec: [ZRemRangeByScore] of the ring, absent from
    the sources; "remove all members whose score lies in the closed
    range". The answer is the number of members removed. *)
Definition ZRemRangeByScore (_ : Context) (key min max : string) (s0 : State)
    : IntCmd * State :=
  let '(f, s) := pop_fault s0 in
  match f with
  | Some e => (mkIntCmd 0 (Some e), s)
  | None =>
      match parseScore min, parseScore max with
      | Some lo, Some hi =>
          let es := entries_of s key in
          let kept := filter (fun e => negb (in_range lo hi e)) es in
          (mkIntCmd (Z.of_nat (length es - length kept)) None,
           with_store s (put_entries s key kept))
      | _, _ => (mkIntCmd 0 (Some (ErrRing "ERR min or max is not a float")), s)
      end
  end.

(** Modelled from the spec: [ZRangeByScoreWithScores] of the ring, absent
    from the sources; "return that slice as a list of (member, score)
    pairs ordered by ascending score". Equal scores are ordered by
    member; the limit applies when offset or count is set. *)
Definition ZRangeByScoreWithScores (_ : Context) (key : string)
    (opt : ZRangeBy) (s0 : State) : ZSliceCmd * State :=
  let '(f, s) := pop_fault s0 in
  match f with
  | Some e => (mkZSliceCmd [] (Some e), s)
  | None =>
      match parseScore (Min opt), parseScore (Max opt) with
      | Some lo, Some hi =>
          let sel := sort_entries (filter (in_range lo hi) (entries_of s key)) in
          let sel :=
            if (Offset opt =? 0)%Z && (Count opt =? 0)%Z then sel
            else
              let rest := drop (Z.to_nat (Offset opt)) sel in
              if (Count opt <? 0)%Z then rest else take (Z.to_nat (Count opt)) rest in
          (mkZSliceCmd (map (fun e => mkZ (snd e) (AnyString (fst e))) sel) None, s)
      | _, _ => (mkZSliceCmd [] (Some (ErrRing "ERR min or max is not a float")), s)
      end
  end.

(** Modelled from the spec: [Expire] of the ring, absent from the
    sources; "set TTL, creating or refreshing". A key that does not
    exist gets none and the answer is false. *)
Definition Expire (_ : Context) (key : string) (d : Duration) (s0 : State)
    : BoolCmd * State :=
  let '(f, s) := pop_fault s0 in
  match f with
  | Some e => (mkBoolCmd false (Some e), s)
  | None =>
      match store s !! key with
      | Some b =>
          (mkBoolCmd true None,
           with_store s (<[key := mkBucket (entries b) (Some d)]> (store s)))
      | None => (mkBoolCmd false None, s)
      end
  end.

#[local] Instance sim_host : Host State := {|
  host_Now := Now;
  host_ZRemRangeByScore := ZRemRangeByScore;
  host_ZCard := ZCard;
  host_ZAdd := ZAdd;
  host_Expire := Expire;
  host_ZRangeByScoreWithScores := ZRangeByScoreWithScores
|}.

End Ring.

(** ** Stand-ins to run examples

    A digest, a key format and a float syntax, enough to run the
    limiter on [Sim]; no result below depends on which they are. The
    text of a score is the decimal of the integer it holds, which the
    server reads back as the same [float64]. *)

Definition float64_to_Z (f : float64) : Z :=
  match f with
  | S754_finite sg m e =>
      let v := if (0 <=? e)%Z then Z.pos m * 2 ^ e else Z.pos m / 2 ^ (- e) in
      if sg then - v else v
  | _ => 0
  end.

#[local] Instance demo_externals : Externals := {|
  getHashedKey := fun s => s;
  swarmKeyFormat := "ratelimit.%s.%s";
  Sprint_float64 := fun f => FormatInt (float64_to_Z f)
|}.

Definition demo_parseScore (s : string) : option float64 :=
  if String.eqb s "0.0" then Some (S754_zero false)
  else
    match ParseInt s with
    | (n, None) => Some (float64_of_int64 n)
    | _ => None
    end.

#[local] Instance demo_host : Host State := sim_host demo_parseScore.

Definition start (t : Time) (dt : Duration) (fs : list (option error)) : World State :=
  mkWorld (mkState t dt ∅ fs) [] ∅ [] [] [].

End Sim.

(* ===================================================================== *)
(** * What a call is observed to do *)
(* ===================================================================== *)

(** ** Decimal 64-bit integers

    The texts that denote an [int64] in base 10: an optional sign and
    one or more digits, with a value in range. *)

Fixpoint digits_value (s : string) (acc : Z) : option Z :=
match s with
| EmptyString => Some acc
| String a rest =>
    match digit_val a with
    | Some d => digits_value rest (acc * 10 + d)
    | None => None
    end
end.

Definition unsigned_decimal (s : string) : option Z :=
match s with
| EmptyString => None
| _ => digits_value s 0
end.

Definition signed_decimal (s : string) : option Z :=
match s with
| EmptyString => None
| String a rest =>
    if Ascii.eqb a "+" then unsigned_decimal rest
    else if Ascii.eqb a "-" then Z.opp <$> unsigned_decimal rest
    else unsigned_decimal s
end.

Definition decimal_int64 (s : string) : option Z :=
match signed_decimal s with
| Some n => if (minInt64 <=? n)%Z && (n <=? maxInt64)%Z then Some n else None
| None => None
end.

(** ** The reply to the oldest-entry query *)

(** A member that is not a string, or not the decimal of an [int64]. *)
Definition malformed (v : any) : Prop :=
match v with
| AnyString s => decimal_int64 s = None
| _ => True
end.

Definition reply_failed (res : ZSliceCmd) : Prop := zs_err res <> None.

Definition reply_empty (res : ZSliceCmd) : Prop :=
zs_err res = None /\ zs_val res = [].

Definition reply_malformed (res : ZSliceCmd) : Prop :=
zs_err res = None /\ exists z rest, zs_val res = z :: rest /\ malformed (Member z).

(** The first entry returned carries the timestamp [n]. *)
Definition reply_oldest (res : ZSliceCmd) (n : Z) : Prop :=
zs_err res = None /\
exists z rest s, zs_val res = z :: rest /\ Member z = AnyString s /\ decimal_int64 s = Some n.

(** ** The commands of a call *)

(** From [w] to [w'] the commands [cs] went to the ring, in this order. *)
Definition sent {E : Type} (w w' : World E) (cs : list Call) : Prop :=
calls w' = (calls w ++ cs)%list.

(** The call sent one command, the oldest-entry query, answered [res]. *)
Definition asked {E A : Type} (m : M E A) (w : World E) (res : ZSliceCmd) : Prop :=
exists key opt, sent w (snd (m w)) [CallZRangeByScoreWithScores key opt res].

(** No command sent from [w] to [w'] was answered with an error. *)
Definition no_ring_error {E : Type} (w w' : World E) : Prop :=
exists cs, sent w w' cs /\ Forall (fun call => call_err call = None) cs.

(** The count the admission check obtained: the answer of [ZCard] when it
    and the prune before it succeeded. *)
Definition checked_count (cs : list Call) : option Z :=
match cs with
| CallZRemRangeByScore _ _ _ prune :: CallZCard _ card :: _ =>
    if is_err (int_err prune) || is_err (int_err card) then None
    else Some (int_val card)
| _ => None
end.

(** ** Clock and timers *)

(** The instant the next [time.Now()] returns. *)
Definition next_reading {E : Type} `{Host E} (w : World E) : Time :=
fst (host_Now (host w)).

(** The result label of a timer. *)
Definition label (fail : bool) : string := if fail then "failure" else "success".

(** The key of the timer of the operation [op] ([allow], [retryafter])
    with the result label [result]. *)
Definition timer_key (c : clusterLimitRedis) (op result : string) : string :=
if String.eqb (group c) "" then "swarm.redis.query." ++ op ++ "." ++ result
else "swarm.redis.query." ++ op ++ "." ++ result ++ "." ++ group c.

(** The delta a [RetryAfterContext] call obtains: the clock is read,
    then [deltaFrom] runs from that instant. *)
Definition retry_delta {E : Type} `{Host E} `{Externals} (c : clusterLimitRedis)
  (ctx : Context) (clearText : string) (w : World E) : Duration * option error :=
fst ((now ← time_Now; deltaFrom c ctx clearText now) w).

(** ** The method set of [*clusterLimitRedis]

    Every method of the type, with whether its first parameter is a
    [context.Context]. *)
Definition methods : list (string * bool) :=
[ ("prefixKey", false); ("measureQuery", false); ("startSpan", true);
  ("AllowContext", true); ("Allow", false); ("allowCheckCard", true);
  ("Close", false); ("deltaFrom", true); ("Delta", false);
  ("oldest", true); ("Oldest", false); ("Resize", false);
  ("RetryAfterContext", true); ("RetryAfter", false) ].

Definition has_method (name : string) : bool :=
existsb (fun m => String.eqb (fst m) name) methods.

(** Whether the type has a method named after [name] with the suffix
    [Context]. *)
Definition has_Context_variant (name : string) : bool :=
has_method (name ++ "Context").

(** ** Sequences of the no-op calls *)

Inductive NoopCall : Type :=
| DoResize (key : string) (n : Z)
| DoClose.

Section Noops.
Context {E : Type}.

Definition run_noop (c : clusterLimitRedis) (call : NoopCall) : M E unit :=
match call with
| DoResize key n => Resize c key n
| DoClose => Close c
end.

Fixpoint run_noops (c : clusterLimitRedis) (l : list NoopCall) : M E unit :=
match l with
| [] => mret tt
| call :: l' => run_noop c call;; run_noops c l'
end.

End Noops.

(** ** Worlds to run the limiter in *)

Module Examples.

#[local] Existing Instance Sim.demo_externals.
#[local] Existing Instance Sim.demo_host.

(** The limiter of the scenarios: group [g], three hits in ten seconds. *)
Definition lim : clusterLimitRedis := mkLimiter "g" 3 (10 * Second).

Definition T0 : Time := 1700000000000000000.

Definition key_u1 : string := "ratelimit.g.u1".

(** A world whose clock stands at [t] and whose ring holds the bucket
    [es] for the client key [u1]; the ring operations to come fail as
    [fs] says. *)
Definition world (t : Time) (es : list (string * float64)) (fs : list (option error))
  : World Sim.State :=
mkWorld (Sim.mkState t 0
           (match es with
            | [] => ∅
            | _ => {[ key_u1 := Sim.mkBucket es None ]}
            end) fs)
        [] ∅ [] [] [].

Definition entry (n : Z) : string * float64 := (Sim.FormatInt n, float64_of_int64 n).

(** The query of [oldest] when the clock reads [t]. *)
Definition query (t : Time) : ZRangeBy :=
mkZRangeBy "0.0" (Sim.FormatInt t) 0 1.

(** One admission at [T0], seen three seconds later. *)
Definition w_one : World Sim.State := world (T0 + 3 * Second) [entry T0] [].
Definition reply_one : ZSliceCmd :=
mkZSliceCmd [mkZ (float64_of_int64 T0) (AnyString (Sim.FormatInt T0))] None.

(** One admission at [T0], seen a full window later. *)
Definition w_boundary : World Sim.State := world (T0 + 10 * Second) [entry T0] [].

(** Nothing admitted yet. *)
Definition w_empty : World Sim.State := world T0 [] [].
Definition reply_none : ZSliceCmd := mkZSliceCmd [] None.

(** A bucket whose first member is not a number. *)
Definition w_garbled : World Sim.State :=
world T0 [("abc", float64_of_int64 5)] [].
Definition reply_garbled : ZSliceCmd :=
mkZSliceCmd [mkZ (float64_of_int64 5) (AnyString "abc")] None.

(** A ring that fails the next operation. *)
Definition w_down : World Sim.State := world T0 [] [Some (ErrRing "i/o timeout")].
Definition reply_down : ZSliceCmd := mkZSliceCmd [] (Some (ErrRing "i/o timeout")).

(** Three admissions in the window. *)
Definition w_full : World Sim.State :=
world (T0 + 3 * Second) [entry T0; entry (T0 + Second); entry (T0 + 2 * Second)] [].

Definition demo_Allow : clusterLimitRedis -> string -> M Sim.State bool := Allow.
Definition demo_AllowContext : clusterLimitRedis -> Context -> string -> M Sim.State bool :=
AllowContext.
Definition demo_RetryAfter : clusterLimitRedis -> string -> M Sim.State Z := RetryAfter.
Definition demo_RetryAfterContext : clusterLimitRedis -> Context -> string -> M Sim.State Z :=
RetryAfterContext.
Definition demo_Delta : clusterLimitRedis -> string -> M Sim.State Duration := Delta.
Definition demo_Oldest : clusterLimitRedis -> string -> M Sim.State Time := Oldest.
Definition demo_oldest
  : clusterLimitRedis -> Context -> string -> M Sim.State (Time * option error) := oldest.
Definition demo_deltaFrom
  : clusterLimitRedis -> Context -> string -> Time -> M Sim.State (Duration * option error) :=
deltaFrom.
Definition demo_retry_delta
  : clusterLimitRedis -> Context -> string -> World Sim.State -> Duration * option error :=
retry_delta.
Definition demo_next_reading : World Sim.State -> Time := next_reading.

(** The world [w] with the clock moved to [t]. *)
Definition at_time (t : Time) (w : World Sim.State) : World Sim.State :=
mkWorld (Sim.mkState t (Sim.tick (host w)) (Sim.store (host w)) (Sim.faults (host w)))
        (calls w) (counters w) (timers w) (spans w) (logs w).

(** [Allow] for the key [k], once at each of the instants [ts]. *)
Fixpoint allow_at (c : clusterLimitRedis) (k : string) (ts : list Time)
  (w : World Sim.State) : list bool * World Sim.State :=
match ts with
| [] => ([], w)
| t :: ts' =>
    let '(b, w1) := demo_Allow c k (at_time t w) in
    let '(bs, w2) := allow_at c k ts' w1 in
    (b :: bs, w2)
end.

End Examples.

(* ===================================================================== *)
(** * More of what a call is observed to do *)
(* ===================================================================== *)

(** ** Commands, spans and labels of a call *)

(** Some command among [cs] was answered with an error. *)
Definition any_failed (cs : list Call) : bool :=
existsb (fun call => is_err (call_err call)) cs.

(** The key a command is about. *)
Definition call_key (call : Call) : string :=
match call with
| CallZRemRangeByScore key _ _ _ | CallZCard key _ | CallZAdd key _ _
| CallExpire key _ _ | CallZRangeByScoreWithScores key _ _ => key
end.

(** A command that writes to the store. *)
Definition is_write (call : Call) : bool :=
match call with
| CallZRemRangeByScore _ _ _ _ | CallZAdd _ _ _ | CallExpire _ _ _ => true
| CallZCard _ _ | CallZRangeByScoreWithScores _ _ _ => false
end.

(** [Expire] was sent and succeeded. *)
Definition expire_ok (cs : list Call) : bool :=
existsb (fun call =>
           match call with
           | CallExpire _ _ r => negb (is_err (bool_err r))
           | _ => false
           end) cs.

(** The name of the span around a command. *)
Definition span_name_of (call : Call) : string :=
match call with
| CallZRemRangeByScore _ _ _ _ => allowCheckRemRangeSpanName
| CallZCard _ _ => allowCheckSpanName
| CallZAdd _ _ _ => allowAddSpanName
| CallExpire _ _ _ => allowExpireSpanName
| CallZRangeByScoreWithScores _ _ _ => oldestScoreSpanName
end.

(** The span of a command of the limiter [c] under the parent [parent],
    marked as failed when [failed]. *)
Definition span_for (c : clusterLimitRedis) (parent : nat) (call : Call)
  (failed : bool) : Span :=
mkSpan (span_name_of call) parent "skipper" "client"
       (group c) (maxHits c) (window c) failed.

(** The parent span a context carries, if the context is not nil. *)
Definition ctx_parent (ctx : Context) : option nat :=
match ctx with
| Some cx => parentSpan cx
| None => None
end.

(** The spans a call records for the commands [cs]: none without a
    parent span, else one for each command, failed as the command is. *)
Definition spans_for (c : clusterLimitRedis) (ctx : Context) (cs : list Call)
  : list Span :=
match ctx_parent ctx with
| Some parent => map (fun call => span_for c parent call (is_err (call_err call))) cs
| None => []
end.

(** The query [oldest] sends when the clock reads [now]. *)
Definition oldest_query `{Externals} (now : Time) : ZRangeBy :=
mkZRangeBy "0.0" (Sprint_float64 (float64_of_int64 (UnixNano now))) 0 1.

(** From the outside world [h], [ZAdd] of the instant [now] and then
    [Expire] lead to [final]. *)
Definition add_then_expire {E : Type} `{Host E} (c : clusterLimitRedis) (ctx : Context)
  (key : string) (now : Time) (h final : E) : Prop :=
exists ra h' re,
  host_ZAdd ctx key (mkZ (float64_of_int64 (UnixNano now)) (AnyInt64 (UnixNano now))) h
    = (ra, h') /\
  host_Expire ctx key (dadd (window c) Second) h' = (re, final).

(** ** The value of a decimal numeral *)

(** The digits [d], most significant first, read after [acc]. *)
Fixpoint uint_value (d : Decimal.uint) (acc : Z) : Z :=
match d with
| Decimal.Nil => acc
| Decimal.D0 d => uint_value d (acc * 10)
| Decimal.D1 d => uint_value d (acc * 10 + 1)
| Decimal.D2 d => uint_value d (acc * 10 + 2)
| Decimal.D3 d => uint_value d (acc * 10 + 3)
| Decimal.D4 d => uint_value d (acc * 10 + 4)
| Decimal.D5 d => uint_value d (acc * 10 + 5)
| Decimal.D6 d => uint_value d (acc * 10 + 6)
| Decimal.D7 d => uint_value d (acc * 10 + 7)
| Decimal.D8 d => uint_value d (acc * 10 + 8)
| Decimal.D9 d => uint_value d (acc * 10 + 9)
end.

(* ===================================================================== *)
(** * Construction of the ring and of the limiter *)
(* ===================================================================== *)

Record RedisOptions : Type := mkRedisOptions {
  Addrs : list string;
  ReadTimeout : Duration;
  WriteTimeout : Duration;
  PoolTimeout : Duration;
  MinIdleConns : Z;
  MaxIdleConns : Z;
  ConnMetricsInterval : Duration;
  Tracer : option nat              (* a tracer, or nil *)
}.

(** The fields of [redis.RingOptions] that [newRing] sets. *)
Record RingOptions : Type := mkRingOptions {
  opt_Addrs : gmap string string;
  opt_ReadTimeout : Duration;
  opt_WriteTimeout : Duration;
  opt_PoolTimeout : Duration;
  opt_MinIdleConns : Z;
  opt_PoolSize : Z
}.

Definition DefaultReadTimeout : Duration := 25 * Millisecond.
Definition DefaultWriteTimeout : Duration := 25 * Millisecond.
Definition DefaultPoolTimeout : Duration := 25 * Millisecond.
Definition DefaultMinConns : Z := 100.
Definition DefaultMaxConns : Z := 100.
Definition defaultConnMetricsInterval : Duration := 60 * Second.

(** [fmt.Sprintf("redis%d", idx)]. *)
Definition shard_name (idx : nat) : string := "redis" ++ Sim.FormatInt (Z.of_nat idx).

(** The loop [for idx, addr := range ro.Addrs], from the index [idx] on. *)
Fixpoint add_shards (idx : nat) (addrs : list string) (m : gmap string string)
  : gmap string string :=
match addrs with
| [] => m
| addr :: rest => add_shards (S idx) rest (<[shard_name idx := addr]> m)
end.

(** The [ring] struct: the options its [redis.Ring] was made with and
    its tracer; its metrics are [metrics.Default]. *)
Record ring : Type := mkRing {
  ring_options : RingOptions;
  ring_tracer : option nat
}.

(** What a call of [newRing] leaves: the ring returned (or nil), the
    options of the caller as the call left them, and the interval of the
    worker started, if one was. *)
Record NewRing : Type := mkNewRing {
  new_ring : option ring;
  new_options : option RedisOptions;
  new_worker : option Duration
}.

Definition newRing (ro : option RedisOptions) : NewRing :=
match ro with
| None => mkNewRing None None None
| Some o =>
    let ringOptions :=
      mkRingOptions (add_shards 0 (Addrs o) ∅) (ReadTimeout o) (WriteTimeout o)
                    (PoolTimeout o) (MinIdleConns o) (MaxIdleConns o) in
    let o' :=
      if (ConnMetricsInterval o <=? 0)%Z
      then mkRedisOptions (Addrs o) (ReadTimeout o) (WriteTimeout o) (PoolTimeout o)
                          (MinIdleConns o) (MaxIdleConns o) defaultConnMetricsInterval
                          (Tracer o)
      else o in
    mkNewRing (Some (mkRing ringOptions (Tracer o))) (Some o')
              (Some (ConnMetricsInterval o'))
end.

(** ** The worker that publishes the pool statistics *)

(** [redis.PoolStats]; the counts are [uint32]. *)
Record PoolStats : Type := mkPoolStats {
  Hits : Z; Misses : Z; Timeouts : Z; TotalConns : Z; IdleConns : Z; StaleConns : Z
}.

(** What the [select] of the worker receives: the timer fires, and the
    pool statistics read then are [stats], or [quit] is signalled. *)
Inductive WorkerEvent : Type :=
| Tick (stats : PoolStats)
| Quit.

Record Worker : Type := mkWorker {
  gauges : gmap string float64;     (* metrics.UpdateGauge *)
  ring_closed : nat;                (* calls of r.ring.Close() *)
  returned : bool                   (* the goroutine has returned *)
}.

Definition UpdateGauge (key : string) (v : float64) (g : gmap string float64)
  : gmap string float64 := <[key := v]> g.

(** The body of [case <-time.After(ro.ConnMetricsInterval)]. *)
Definition publish (stats : PoolStats) (g : gmap string float64) : gmap string float64 :=
let g := UpdateGauge (redisMetricsPrefix ++ "hits") (float64_of_int64 (Hits stats)) g in
let g := UpdateGauge (redisMetricsPrefix ++ "idleconns") (float64_of_int64 (IdleConns stats)) g in
let g := UpdateGauge (redisMetricsPrefix ++ "misses") (float64_of_int64 (Misses stats)) g in
let g := UpdateGauge (redisMetricsPrefix ++ "staleconns") (float64_of_int64 (StaleConns stats)) g in
let g := UpdateGauge (redisMetricsPrefix ++ "timeouts") (float64_of_int64 (Timeouts stats)) g in
UpdateGauge (redisMetricsPrefix ++ "totalconns") (float64_of_int64 (TotalConns stats)) g.

(** The loop of the goroutine over the events it receives; with no
    event left it waits. *)
Fixpoint stats_worker (events : list WorkerEvent) (st : Worker) : Worker :=
match events with
| [] => st
| Tick stats :: rest =>
    stats_worker rest (mkWorker (publish stats (gauges st)) (ring_closed st) false)
| Quit :: _ => mkWorker (gauges st) (S (ring_closed st)) true
end.

(** ** [newClusterRateLimiterRedis] *)

(** The fields of [Settings] the constructor reads. *)
Record Settings : Type := mkSettings { MaxHits : Z; TimeWindow : Duration }.

Inductive TracerRef : Type :=
| NoopTracer                 (* &opentracing.NoopTracer{} *)
| RingTracer (t : nat).      (* the tracer of the ring *)

(** The outside world at start-up: the answer of a [Ping] and the next
    interval of the exponential back-off, [None] being [backoff.Stop]. *)
Class Startup (E : Type) : Type := {
  host_Ping : E -> option error * E;
  host_NextBackOff : E -> option Duration * E
}.

Record Boot (E : Type) : Type := mkBoot {
  boot_host : E;
  boot_pings : list (option error);   (* the answers of the pings sent *)
  boot_sleeps : list Duration;        (* the waits between them *)
  boot_logs : list (Level * string)
}.

Arguments mkBoot {E}.
Arguments boot_host {E}.
Arguments boot_pings {E}.
Arguments boot_sleeps {E}.
Arguments boot_logs {E}.

(** The line the operation logs when a ping fails. *)
Definition ping_failed_log : Level * string :=
(LvlInfo, "Failed to ping redis, retry with backoff: %v").

Section Construction.
Context {E : Type} `{Startup E}.

(** [backoff.Retry(operation, backoff.WithMaxRetries(b, retries))]: the
    operation pings and logs a failure; after a failure the next
    interval is asked for, unless [retries] retries were made already,
    and the loop sleeps that long. *)
Fixpoint ping_retry (retries : nat) (b : Boot E) : option error * Boot E :=
let '(err, h) := host_Ping (boot_host b) in
let b := mkBoot h (boot_pings b ++ [err]) (boot_sleeps b) (boot_logs b) in
match err with
| None => (None, b)
| Some e =>
    let b := mkBoot (boot_host b) (boot_pings b) (boot_sleeps b)
                    (boot_logs b ++ [ping_failed_log]) in
    match retries with
    | O => (Some e, b)
    | S retries' =>
        let '(next, h) := host_NextBackOff (boot_host b) in
        match next with
        | None => (Some e, mkBoot h (boot_pings b) (boot_sleeps b) (boot_logs b))
        | Some d =>
            ping_retry retries'
              (mkBoot h (boot_pings b) (boot_sleeps b ++ [d]) (boot_logs b))
        end
    end
end.

Definition newClusterRateLimiterRedis (s : Settings) (r : option ring) (group : string)
  (b : Boot E) : option (clusterLimitRedis * TracerRef) * Boot E :=
match r with
| None => (None, b)
| Some r =>
    let rl := mkLimiter group (MaxHits s) (TimeWindow s) in
    let tracer :=
      match ring_tracer r with
      | Some t => RingTracer t
      | None => NoopTracer
      end in
    let '(err, b) := ping_retry 7 b in
    match err with
    | Some _ =>
        (None, mkBoot (boot_host b) (boot_pings b) (boot_sleeps b)
                      (boot_logs b ++ [(LvlError, "Failed to connect to redis: %v")]))
    | None =>
        (Some (rl, tracer),
         mkBoot (boot_host b) (boot_pings b) (boot_sleeps b)
                (boot_logs b ++ [(LvlDebug, "Redis ring is reachable")]))
    end
end.

End Construction.

(* ===================================================================== *)
(** * Package auth: tokens, filter arguments and the user mask *)
(* ===================================================================== *)

Module strings.

(** [strings.HasPrefix(s, prefix)]. *)
Fixpoint HasPrefix (s prefix : string) : bool :=
match prefix, s with
| EmptyString, _ => true
| String _ _, EmptyString => false
| String p prefix', String a s' => if Ascii.eqb a p then HasPrefix s' prefix' else false
end.

(** The slice expression [s[n:]], for [n <= len(s)]. *)
Fixpoint slice_from (n : nat) (s : string) : string :=
match n, s with
| O, _ => s
| S n', String _ s' => slice_from n' s'
| S _, EmptyString => EmptyString
end.

(** [strings.Split(s, sep)] for a separator of one byte. *)
Fixpoint Split (s : string) (sep : ascii) : list string :=
match s with
| EmptyString => [EmptyString]
| String a s' =>
    if Ascii.eqb a sep then EmptyString :: Split s' sep
    else match Split s' sep with
         | piece :: pieces => String a piece :: pieces
         | [] => [String a EmptyString]
         end
end.

(** The first occurrence of [sep] in [s]: what is before and after it. *)
Fixpoint cut (s : string) (sep : ascii) : option (string * string) :=
match s with
| EmptyString => None
| String a s' =>
    if Ascii.eqb a sep then Some (EmptyString, s')
    else match cut s' sep with
         | Some (before, after) => Some (String a before, after)
         | None => None
         end
end.

(** [strings.SplitN(s, sep, 2)] for a separator of one byte. *)
Definition SplitN2 (s : string) (sep : ascii) : list string :=
match cut s sep with
| Some (before, after) => [before; after]
| None => [s]
end.

(** [strings.Join(elems, sep)]. *)
Fixpoint Join (elems : list string) (sep : string) : string :=
match elems with
| [] => EmptyString
| [e] => e
| e :: rest => e ++ sep ++ Join rest sep
end.

End strings.

Module auth.

Definition authHeaderName : string := "Authorization".
Definition authHeaderPrefix : string := "Bearer ".

(** [http.Header], and [Header.Get] for a key in canonical form. *)
Definition Header : Type := gmap string (list string).

Definition Header_Get (h : Header) (key : string) : string :=
match h !! key with
| Some (v :: _) => v
| _ => EmptyString
end.

Definition getToken (header : Header) : string * bool :=
let h := Header_Get header authHeaderName in
if negb (strings.HasPrefix h authHeaderPrefix) then (EmptyString, false)
else (strings.slice_from (String.length authHeaderPrefix) h, true).

Definition ErrInvalidFilterParameters : error := ErrNew "invalid filter parameters".

(** The loop of [getStrings] from the index [length done] on, [done]
    being the elements of [s] assigned so far. *)
Fixpoint getStrings_loop (args : list any) (done : list string)
  : option (list string) * option error :=
match args with
| [] => (Some done, None)
| a :: rest =>
    let '(v, ok) := assert_string a in
    if negb ok then (None, Some ErrInvalidFilterParameters)
    else getStrings_loop rest (done ++ [v])%list
end.

Definition getStrings (args : list any) : option (list string) * option error :=
getStrings_loop args [].

(** The inner loop of [all]: the value of [found] when it ends. *)
Fixpoint found_in (l : string) (right : list string) : bool :=
match right with
| [] => false
| r :: right' => if String.eqb l r then true else found_in l right'
end.

Fixpoint all (left right : list string) : bool :=
match left with
| [] => true
| l :: left' => if negb (found_in l right) then false else all left' right
end.

(** The inner loop of [intersect]: whether it returns true. *)
Fixpoint intersect_row (l : string) (right : list string) : bool :=
match right with
| [] => false
| r :: right' => if String.eqb l r then true else intersect_row l right'
end.

Fixpoint intersect (left right : list string) : bool :=
match left with
| [] => false
| l :: left' => if intersect_row l right then true else intersect left' right
end.

Record maskOAuthUser : Type := mkMaskOAuthUser {
  key : string;
  valuePrefix : string;
  replacement : string
}.

(** [fmt.Errorf(errInvalidOAuthUserFormat, entry)]. *)
Definition errInvalidOAuthUserFormat (entry : string) : error :=
ErrNew ("mask-oauth-user has invalid format. expected <replacement>:<key>=<value> got " ++ entry).

(** The loop of [ParseMaskOAuthUser] over the entries left, [result]
    being the users appended so far. *)
Fixpoint parse_entries (entries : list string) (result : list maskOAuthUser)
  : list maskOAuthUser * option error :=
match entries with
| [] => (result, None)
| entry :: rest =>
    let r := strings.SplitN2 entry ":" in
    if negb (length r =? 2)%nat then ([], Some (errInvalidOAuthUserFormat entry))
    else
      let kv := strings.SplitN2 (nth 1 r EmptyString) "=" in
      if negb (length kv =? 2)%nat then ([], Some (errInvalidOAuthUserFormat entry))
      else
        let user := mkMaskOAuthUser (nth 0 kv EmptyString) (nth 1 kv EmptyString)
                                    (nth 0 r EmptyString) in
        parse_entries rest (result ++ [user])%list
end.

Definition ParseMaskOAuthUser (config : string) : list maskOAuthUser * option error :=
parse_entries (strings.Split config ",") [].

(** [match] over the maps the functions of [authCacheKeys] return for the
    state bag, in their order, [None] being a nil map. *)
Fixpoint match_ (m : maskOAuthUser) (caches : list (option (gmap string any)))
  : string * bool :=
match caches with
| [] => (EmptyString, false)
| None :: rest => match_ m rest
| Some am :: _ =>
    let '(value, ok) :=
      assert_string (match am !! key m with Some v => v | None => AnyNil end) in
    if ok && strings.HasPrefix value (valuePrefix m) then (replacement m, true)
    else (EmptyString, false)
end.

(** The text of a list of users in the format [ParseMaskOAuthUser] reads. *)
Definition mask_entry (u : maskOAuthUser) : string :=
replacement u ++ ":" ++ key u ++ "=" ++ valuePrefix u.

Definition mask_config (users : list maskOAuthUser) : string :=
strings.Join (map mask_entry users) ",".

(** [c] does not occur in [s]. *)
Fixpoint free_of (c : ascii) (s : string) : bool :=
match s with
| EmptyString => true
| String a s' => negb (Ascii.eqb a c) && free_of c s'
end.

(** A user whose text reads back: no comma in it, no colon in the
    replacement, no equals sign in the key. *)
Definition readable (u : maskOAuthUser) : bool :=
free_of "," (replacement u) && free_of "," (key u) && free_of "," (valuePrefix u)
&& free_of ":" (replacement u) && free_of "=" (key u).

(** An entry [ParseMaskOAuthUser] accepts: a colon, and an equals sign
    after the first colon. *)
Definition entry_ok (entry : string) : bool :=
match strings.cut entry ":" with
| Some (_, rest) =>
    match strings.cut rest "=" with
    | Some _ => true
    | None => false
    end
| None => false
end.

End auth.

(** The names of the gauges the worker updates. *)
Definition pool_gauges : list string :=
map (String.append redisMetricsPrefix)
    ["hits"; "idleconns"; "misses"; "staleconns"; "timeouts"; "totalconns"].

(** ** Further scenarios *)

Module MoreExamples.
Import Examples.

Definition key_u2 : string := "ratelimit.g.u2".

(** Two clients: [u1] admitted at [T0], [u2] a second before, seen
    three seconds after [T0]. *)
Definition w_two : World Sim.State :=
mkWorld (Sim.mkState (T0 + 3 * Second) 0
           (<[key_u2 := Sim.mkBucket [entry (T0 - Second)] (Some (5 * Second))]>
              {[ key_u1 := Sim.mkBucket [entry T0] None ]}) [])
        [] ∅ [] [] [].

(** A context that carries the parent span 7. *)
Definition traced : Context := Some (mkCtx (Some 7%nat) false).

Definition service_user : auth.maskOAuthUser :=
auth.mkMaskOAuthUser "uid" "svcaccount_" "service".

Definition anon_user : auth.maskOAuthUser :=
auth.mkMaskOAuthUser "sub" "" "anon".

End MoreExamples.


(* ===================================================================== *)
(** * Arithmetic of the Go types *)
(* ===================================================================== *)

Section Arithmetic.

Lemma wrap64_range (z : Z) : in_int64 (wrap64 z).
Proof.
  unfold in_int64, wrap64, minInt64, maxInt64.
  pose proof (Z.mod_pos_bound (z + 2 ^ 63) (2 ^ 64) ltac:(lia)). lia.
Qed.

Lemma wrap64_id (z : Z) : in_int64 z -> wrap64 z = z.
Proof.
  unfold in_int64, wrap64, minInt64, maxInt64. intros Hz.
  rewrite Z.mod_small; lia.
Qed.

Lemma Sub_range (t u : Time) : in_int64 (Sub t u).
Proof.
  unfold Sub, in_int64, maxDuration, minDuration, maxInt64, minInt64.
  repeat case_match; lia.
Qed.

Lemma Sub_exact (t u : Time) : in_int64 (t - u) -> Sub t u = t - u.
Proof.
  unfold Sub, in_int64, maxDuration, minDuration, maxInt64, minInt64.
  intros Hd. repeat case_match; lia.
Qed.

(** Past the year 293 the gap to the zero time exceeds every duration. *)
Lemma Sub_zeroTime (t : Time) : zeroTime + maxDuration <= t -> Sub t zeroTime = maxDuration.
Proof.
  unfold Sub, maxDuration, minDuration, maxInt64, minInt64. intros Ht.
  repeat case_match; lia.
Qed.

Lemma dsub_range (a b : Duration) : in_int64 (dsub a b).
Proof. apply wrap64_range. Qed.

(** Seconds of a duration, as [int(d / time.Second)] computes them. *)
Lemma ddiv_Second (d : Duration) : in_int64 d -> ddiv d Second = Z.quot d Second.
Proof.
  unfold ddiv, Second, in_int64, minInt64, maxInt64. intros Hd.
  apply wrap64_id. unfold in_int64, minInt64, maxInt64.
  pose proof (Z.quot_pos d 1000000000) as Hp.
  destruct (Z_le_gt_dec 0 d) as [Hd0 | Hd0].
  - pose proof (Z.quot_le_upper_bound d 1000000000 d ltac:(lia) ltac:(nia)).
    pose proof (Z.quot_pos d 1000000000 ltac:(lia) ltac:(lia)). lia.
  - assert (Hq : Z.quot d 1000000000 = - Z.quot (- d) 1000000000)
      by (rewrite Z.quot_opp_l by lia; lia).
    pose proof (Z.quot_le_upper_bound (- d) 1000000000 (- d) ltac:(lia) ltac:(nia)).
    pose proof (Z.quot_pos (- d) 1000000000 ltac:(lia) ltac:(lia)). lia.
Qed.

(** Truncation and floor agree on whether a whole second is left, and
    on how many when one is. *)
Lemma quot_pos_iff_floor (d : Duration) : 0 < Z.quot d Second <-> 0 < d / Second.
Proof.
  unfold Second. split; intros Hq.
  - destruct (Z_lt_le_dec d 0) as [Hd | Hd].
    + pose proof (Z.quot_opp_l d 1000000000 ltac:(lia)).
      pose proof (Z.quot_pos (- d) 1000000000 ltac:(lia) ltac:(lia)). lia.
    + rewrite Z.quot_div_nonneg in Hq by lia. exact Hq.
  - assert (0 <= d).
    { destruct (Z_lt_le_dec d 0) as [Hd | Hd]; [| exact Hd].
      pose proof (Z.div_lt_upper_bound d 1000000000 0 ltac:(lia) ltac:(lia)). lia. }
    rewrite Z.quot_div_nonneg by lia. exact Hq.
Qed.

Lemma quot_eq_floor_pos (d : Duration) : 0 < d / Second -> Z.quot d Second = d / Second.
Proof.
  unfold Second. intros Hq.
  assert (0 <= d).
  { destruct (Z_lt_le_dec d 0) as [Hd | Hd]; [| exact Hd].
    pose proof (Z.div_lt_upper_bound d 1000000000 0 ltac:(lia) ltac:(lia)). lia. }
  apply Z.quot_div_nonneg; lia.
Qed.

End Arithmetic.

(* ===================================================================== *)
(** * strconv.ParseInt *)
(* ===================================================================== *)

Section Strconv.

Lemma digit_val_range (a : ascii) (d : Z) : digit_val a = Some d -> 0 <= d <= 9.
Proof.
  unfold digit_val. intros Hd.
  destruct (_ && _)%bool eqn:Hb; [| discriminate].
  apply andb_prop in Hb as [H1 H2]. inversion Hd; subst. lia.
Qed.

Lemma digits_value_ge (s : string) : forall acc v,
  0 <= acc -> digits_value s acc = Some v -> acc <= v.
Proof.
  induction s as [| a s IH]; intros acc v Hacc Hv; simpl in Hv.
  - inversion Hv; lia.
  - destruct (digit_val a) as [d |] eqn:Hd; [| discriminate].
    apply digit_val_range in Hd. apply IH in Hv; lia.
Qed.

Lemma ParseUint_loop_ok (s : string) : forall n v,
  0 <= n <= maxUint64 ->
  ParseUint_loop s n = inl v <-> digits_value s n = Some v /\ v <= maxUint64.
Proof.
  unfold maxUint64.
  induction s as [| a s IH]; intros n v Hn; simpl.
  - split; [intros Hv; inversion Hv; subst; split; [reflexivity | lia]
           | intros [Hv _]; inversion Hv; reflexivity].
  - destruct (digit_val a) as [d |] eqn:Hd; [| split; [discriminate | intros [? _]; discriminate]].
    pose proof (digit_val_range _ _ Hd) as Hr.
    change (maxUint64 / 10 + 1) with 1844674407370955162.
    unfold maxUint64.
    destruct (Z.leb_spec 1844674407370955162 n) as [Hc | Hc].
    + split; [discriminate |]. intros [Hv Hle].
      apply digits_value_ge in Hv; lia.
    + destruct (Z.ltb_spec (2 ^ 64 - 1) (n * 10 + d)) as [Ho | Ho].
      * split; [discriminate |]. intros [Hv Hle].
        apply digits_value_ge in Hv; lia.
      * apply IH. lia.
Qed.

Lemma ParseUint_ok (s : string) (v : Z) :
  ParseUint s = (v, None) <-> unsigned_decimal s = Some v /\ v <= maxUint64.
Proof.
  unfold ParseUint, unsigned_decimal.
  destruct s as [| a s]; [split; [discriminate | intros [? _]; discriminate] |].
  pose proof (ParseUint_loop_ok (String a s) 0 v ltac:(unfold maxUint64; lia)) as Hl.
  destruct (ParseUint_loop (String a s) 0) as [u | []] eqn:Hu.
  - split.
    + intros Heq; inversion Heq; subst. apply Hl. reflexivity.
    + intros Hv. apply Hl in Hv. inversion Hv; reflexivity.
  - split; [discriminate |]. intros Hv. apply Hl in Hv. discriminate.
  - split; [discriminate |]. intros Hv. apply Hl in Hv. discriminate.
Qed.

Lemma unsigned_decimal_nonneg (s : string) (v : Z) : unsigned_decimal s = Some v -> 0 <= v.
Proof.
  unfold unsigned_decimal. destruct s; [discriminate |].
  intros Hv. apply digits_value_ge in Hv; lia.
Qed.

(** What [ParseInt] does with the text after the sign. *)
Lemma ParseInt_body (s0 : string) (neg : bool) (s : string) (n : Z) :
  (let '(un, err) := ParseUint s in
   match err with
   | Some ErrSyntax => (0, Some (ErrNum "ParseInt" s0 ErrSyntax))
   | _ =>
       if negb neg && (2 ^ 63 <=? un)%Z
       then (2 ^ 63 - 1, Some (ErrNum "ParseInt" s0 ErrRange))
       else if neg && (2 ^ 63 <? un)%Z
       then (- 2 ^ 63, Some (ErrNum "ParseInt" s0 ErrRange))
       else (if neg then - un else un, None)
   end) = (n, None)
  <-> exists un, unsigned_decimal s = Some un /\ n = (if neg then - un else un)
                 /\ minInt64 <= n <= maxInt64.
Proof.
  unfold minInt64, maxInt64.
  destruct (ParseUint s) as [un err] eqn:Hp.
  destruct err as [[] |].
  - split; [discriminate |]. intros (u & Hu & -> & Hr).
    pose proof (unsigned_decimal_nonneg _ _ Hu).
    assert (ParseUint s = (u, None)) as Hp' by (apply ParseUint_ok; unfold maxUint64; split; [done | destruct neg; lia]).
    congruence.
  - split.
    + unfold ParseUint in Hp. destruct s; [discriminate |].
      destruct (ParseUint_loop _ _) as [| []]; inversion Hp; subst.
      unfold maxUint64. destruct neg; simpl; discriminate.
    + intros (u & Hu & -> & Hr).
      pose proof (unsigned_decimal_nonneg _ _ Hu).
      assert (ParseUint s = (u, None)) as Hp' by (apply ParseUint_ok; unfold maxUint64; split; [done | destruct neg; lia]).
      congruence.
  - apply ParseUint_ok in Hp as [Hu Hm].
    pose proof (unsigned_decimal_nonneg _ _ Hu).
    split.
    + intros Heq. exists un. split; [done |].
      destruct neg; simpl in Heq.
      * destruct (Z.ltb_spec (2 ^ 63) un); inversion Heq; subst. lia.
      * destruct (Z.leb_spec (2 ^ 63) un); inversion Heq; subst. lia.
    + intros (u & Hu' & -> & Hr). rewrite Hu in Hu'. inversion Hu'; subst u.
      destruct neg; simpl.
      * destruct (Z.ltb_spec (2 ^ 63) un); [lia | reflexivity].
      * destruct (Z.leb_spec (2 ^ 63) un); [lia | reflexivity].
Qed.

(** [ParseInt] accepts exactly the decimal 64-bit integers. *)
Lemma ParseInt_ok (s : string) (n : Z) :
  ParseInt s = (n, None) <-> decimal_int64 s = Some n.
Proof.
  unfold decimal_int64, signed_decimal, ParseInt.
  destruct s as [| a s]; [split; discriminate |].
  change (2 ^ 63) with 9223372036854775808.
  destruct (Ascii.eqb a "+") eqn:Hplus; [| destruct (Ascii.eqb a "-") eqn:Hminus].
  - rewrite (ParseInt_body (String a s) false s n).
    split.
    + intros (un & -> & -> & Hr).
      destruct (Z.leb_spec minInt64 un), (Z.leb_spec un maxInt64); simpl; try lia. reflexivity.
    + destruct (unsigned_decimal s) as [un |]; [| discriminate].
      destruct (Z.leb_spec minInt64 un), (Z.leb_spec un maxInt64); simpl; try discriminate.
      intros Heq; inversion Heq; subst. exists n. split; [done |]. split; [done | lia].
  - rewrite (ParseInt_body (String a s) true s n).
    split.
    + intros (un & -> & -> & Hr). simpl.
      destruct (Z.leb_spec minInt64 (- un)), (Z.leb_spec (- un) maxInt64); simpl; try lia. reflexivity.
    + destruct (unsigned_decimal s) as [un |]; [| discriminate]. simpl.
      destruct (Z.leb_spec minInt64 (- un)), (Z.leb_spec (- un) maxInt64); simpl; try discriminate.
      intros Heq; inversion Heq; subst. exists un. split; [done |]. split; [done | lia].
  - rewrite (ParseInt_body (String a s) false (String a s) n).
    split.
    + intros (un & -> & -> & Hr).
      destruct (Z.leb_spec minInt64 un), (Z.leb_spec un maxInt64); simpl; try lia. reflexivity.
    + destruct (unsigned_decimal (String a s)) as [un |]; [| discriminate].
      destruct (Z.leb_spec minInt64 un), (Z.leb_spec un maxInt64); simpl; try discriminate.
      intros Heq; inversion Heq; subst. exists n. split; [done |]. split; [done | lia].
Qed.

Lemma ParseInt_err (s : string) :
  snd (ParseInt s) <> None <-> decimal_int64 s = None.
Proof.
  destruct (ParseInt s) as [n err] eqn:Hp. simpl. split.
  - intros Herr. destruct (decimal_int64 s) as [m |] eqn:Hd; [| reflexivity].
    apply ParseInt_ok in Hd. congruence.
  - intros Hd Herr. subst err. apply ParseInt_ok in Hp. congruence.
Qed.

End Strconv.

(* ===================================================================== *)
(** * The oldest-entry query and its callers *)
(* ===================================================================== *)

Ltac unfold_m :=
  unfold mbind, M_bind, mret, M_ret, time_Now, ring_ZRemRangeByScore, ring_ZCard,
    ring_ZAdd, ring_Expire, ring_ZRangeByScoreWithScores, IncCounter, MeasureSince,
    FinishSpan, Logf, Result, with_host in *.

Ltac split_ctx ctx :=
  let p := fresh "parent" in
  destruct ctx as [[[p|] ?]|].

Ltac crush_step :=
  repeat match goal with
         | |- _ /\ _ => split
         | |- forall _, _ => intro
         | H : _ /\ _ |- _ => destruct H
         | H : exists _, _ |- _ => destruct H
         | H : _ :: _ = _ :: _ |- _ => inversion H; clear H
         | H : AnyString _ = AnyString _ |- _ => inversion H; clear H
         end;
  subst; cbn in *.

Ltac crush := repeat (progress crush_step); try congruence; eauto.

Section Queries.
Context {E : Type} `{Host E} `{Externals}.
Implicit Types (c : clusterLimitRedis) (ctx : Context) (w : World E).

Lemma asked_unique {A} (m : M E A) w res res' :
  asked m w res -> asked m w res' -> res = res'.
Proof.
  intros (k1 & o1 & H1) (k2 & o2 & H2). unfold sent in *.
  rewrite H1 in H2. apply app_inv_head in H2. congruence.
Qed.

Lemma oldest_run c ctx k w :
  exists res,
    asked (oldest c ctx k) w res /\
    counters (snd (oldest c ctx k w)) = counters w /\
    timers (snd (oldest c ctx k w)) = timers w /\
    (reply_failed res ->
       fst (fst (oldest c ctx k w)) = zeroTime /\ snd (fst (oldest c ctx k w)) <> None) /\
    (reply_empty res -> fst (oldest c ctx k w) = (zeroTime, None)) /\
    (reply_malformed res ->
       fst (fst (oldest c ctx k w)) = zeroTime /\ snd (fst (oldest c ctx k w)) <> None) /\
    (forall n, reply_oldest res n -> fst (oldest c ctx k w) = (Unix0 n, None)).
Proof.
  unfold oldest, asked, sent, startSpan. unfold_m.
  destruct (host_Now (host w)) as [now h1] eqn:Hnow.
  set (key := prefixKey c (getHashedKey k)).
  set (opt := mkZRangeBy _ _ _ _).
  destruct (host_ZRangeByScoreWithScores ctx key opt h1) as [res h2] eqn:Hq.
  exists res.
  unfold reply_failed, reply_empty, reply_malformed, reply_oldest, malformed.
  destruct res as [[| [sc [| s | n | f]] zs] [e |]]; cbn [zs_val zs_err].
  all: try (pose proof (ParseInt_ok s) as Hok; pose proof (ParseInt_err s) as Herr).
  all: split_ctx ctx; cbn; rewrite Hq; cbn.
  all: try (destruct (ParseInt s) as [n [e |]]; cbn in * ).
  all: try (pose proof (proj1 (Hok n) eq_refl) as Hd).
  all: crush.
  all: try match goal with Hd : decimal_int64 _ = Some _ |- _ =>
             apply Hok in Hd; congruence end.
  all: try match goal with Hd : decimal_int64 _ = None |- _ =>
             apply Herr in Hd; congruence end.
Qed.

Lemma deltaFrom_eq c ctx k (from : Time) w :
  deltaFrom c ctx k from w =
  (match snd (fst (oldest c ctx k w)) with
   | Some e => (0, Some e)
   | None => (dsub (window c) (Sub from (fst (fst (oldest c ctx k w)))), None)
   end, snd (oldest c ctx k w)).
Proof.
  unfold deltaFrom. unfold_m.
  destruct (oldest c ctx k w) as [[t [e |]] w']; reflexivity.
Qed.

Lemma deltaFrom_run c ctx k (from : Time) w :
  exists res,
    asked (deltaFrom c ctx k from) w res /\
    counters (snd (deltaFrom c ctx k from w)) = counters w /\
    timers (snd (deltaFrom c ctx k from w)) = timers w /\
    (reply_failed res \/ reply_malformed res ->
       fst (fst (deltaFrom c ctx k from w)) = 0 /\
       snd (fst (deltaFrom c ctx k from w)) <> None) /\
    (reply_empty res ->
       fst (deltaFrom c ctx k from w) = (dsub (window c) (Sub from zeroTime), None)) /\
    (forall n, reply_oldest res n ->
       fst (deltaFrom c ctx k from w) = (dsub (window c) (Sub from (Unix0 n)), None)).
Proof.
  destruct (oldest_run c ctx k w) as (res & Hask & Hc & Ht & Hf & He & Hm & Ho).
  exists res. unfold asked in *. rewrite deltaFrom_eq. cbn [fst snd].
  split; [exact Hask |]. split; [exact Hc |]. split; [exact Ht |].
  split; [| split].
  - intros Hbad.
    assert (snd (fst (oldest c ctx k w)) <> None) as Herr
      by (destruct Hbad as [Hb | Hb]; [apply Hf in Hb | apply Hm in Hb]; tauto).
    destruct (snd (fst (oldest c ctx k w))); [split; [reflexivity | discriminate] | congruence].
  - intros Hb. apply He in Hb. rewrite Hb. reflexivity.
  - intros n Hb. apply Ho in Hb. rewrite Hb. reflexivity.
Qed.


(** The wrappers change the result of the query they run, not what it
    leaves behind. *)

Lemma Oldest_eq c k w :
  let r := oldest c Background k w in
  fst (Oldest c k w) = match snd (fst r) with Some _ => zeroTime | None => fst (fst r) end /\
  calls (snd (Oldest c k w)) = calls (snd r) /\
  counters (snd (Oldest c k w)) = counters (snd r) /\
  timers (snd (Oldest c k w)) = timers (snd r).
Proof.
  unfold Oldest. unfold_m.
  destruct (oldest c Background k w) as [[t [e |]] w']; cbn; auto.
Qed.

Lemma Delta_eq c k w :
  let r := deltaFrom c Background k (next_reading w) (snd (time_Now w)) in
  fst (Delta c k w) = match snd (fst r) with Some _ => 0 | None => fst (fst r) end /\
  calls (snd (Delta c k w)) = calls (snd r) /\
  counters (snd (Delta c k w)) = counters (snd r) /\
  timers (snd (Delta c k w)) = timers (snd r).
Proof.
  unfold Delta, next_reading. unfold_m.
  destruct (host_Now (host w)) as [now h]; cbn [fst snd].
  destruct (deltaFrom c Background k now _) as [[d [e |]] w']; cbn; auto.
Qed.

Lemma append_nil_r (s : string) : s ++ "" = s.
Proof.
  induction s as [| a s IH]; [reflexivity |].
  change (String a (s ++ "") = String a s). rewrite IH. reflexivity.
Qed.

Lemma measureQuery_allow c (fail : bool) (start : Time) w :
  measureQuery c allowMetricsFormat allowMetricsFormatWithGroup (Some fail) start w =
  MeasureSince (timer_key c "allow" (label fail)) start w.
Proof.
  unfold measureQuery, timer_key, label.
  destruct fail, (String.eqb (group c) ""); try reflexivity.
  all: f_equal; generalize (group c); intros g.
  all: match goal with
       | |- _ = ?pre ++ ?op ++ "." ++ ?r ++ "." ++ ?g' =>
           transitivity (pre ++ op ++ "." ++ r ++ "." ++ (g' ++ ""));
           [reflexivity | rewrite append_nil_r; reflexivity]
       end.
Qed.

Lemma measureQuery_retryafter c (fail : bool) (start : Time) w :
  measureQuery c retryAfterMetricsFormat retryAfterMetricsFormatWithGroup (Some fail) start w =
  MeasureSince (timer_key c "retryafter" (label fail)) start w.
Proof.
  unfold measureQuery, timer_key, label.
  destruct fail, (String.eqb (group c) ""); try reflexivity.
  all: f_equal; generalize (group c); intros g.
  all: match goal with
       | |- _ = ?pre ++ ?op ++ "." ++ ?r ++ "." ++ ?g' =>
           transitivity (pre ++ op ++ "." ++ r ++ "." ++ (g' ++ ""));
           [reflexivity | rewrite append_nil_r; reflexivity]
       end.
Qed.

Lemma RetryAfterContext_eq c ctx k w :
  let now := next_reading w in
  let r := deltaFrom c ctx k now (snd (time_Now w)) in
  fst (RetryAfterContext c ctx k w) =
    match snd (fst r) with
    | Some _ => 1
    | None =>
        let res := ddiv (fst (fst r)) Second in
        if (0 <? res)%Z then wrap64 (res + 1) else 1
    end /\
  calls (snd (RetryAfterContext c ctx k w)) = calls (snd r) /\
  counters (snd (RetryAfterContext c ctx k w)) = counters (snd r) /\
  timers (snd (RetryAfterContext c ctx k w)) =
    (timers (snd r) ++ [(timer_key c "retryafter" (label (is_err (snd (fst r)))), now)])%list.
Proof.
  unfold RetryAfterContext, RetryAfterContext_body, next_reading, time_Now.
  unfold mbind, M_bind, mret, M_ret.
  destruct (host_Now (host w)) as [now h]; cbn [fst snd].
  destruct (deltaFrom c ctx k now _) as [[d [e |]] w']; cbn [fst snd is_err].
  - unfold Logf. rewrite measureQuery_retryafter. cbn. auto.
  - destruct (0 <? ddiv d Second)%Z; rewrite measureQuery_retryafter; cbn; auto.
Qed.

Lemma time_Now_frame w :
  calls (snd (time_Now w)) = calls w /\
  counters (snd (time_Now w)) = counters w /\
  timers (snd (time_Now w)) = timers w.
Proof. unfold time_Now. destruct (host_Now (host w)); cbn; auto. Qed.

Lemma asked_transfer {A B} (m : M E A) (m' : M E B) w w' res :
  calls w = calls w' -> calls (snd (m w)) = calls (snd (m' w')) ->
  asked m w res <-> asked m' w' res.
Proof.
  intros Hw Hm. unfold asked, sent. rewrite Hw, Hm. reflexivity.
Qed.

Lemma retry_delta_eq c ctx k w :
  retry_delta c ctx k w = fst (deltaFrom c ctx k (next_reading w) (snd (time_Now w))).
Proof.
  unfold retry_delta, next_reading, time_Now. unfold mbind, M_bind.
  destruct (host_Now (host w)); reflexivity.
Qed.

Lemma deltaFrom_value_range c ctx k (from : Time) w :
  snd (fst (deltaFrom c ctx k from w)) = None ->
  in_int64 (fst (fst (deltaFrom c ctx k from w))).
Proof.
  rewrite deltaFrom_eq. cbn [fst snd].
  destruct (snd (fst (oldest c ctx k w))); [discriminate |].
  intros _. apply dsub_range.
Qed.

(** The seconds of [RetryAfterContext], from the delta. *)
Lemma retry_seconds (d : Duration) :
  in_int64 d ->
  (if (0 <? ddiv d Second)%Z then wrap64 (ddiv d Second + 1) else 1) =
  (if (0 <? d / Second)%Z then d / Second + 1 else 1).
Proof.
  intros Hd. rewrite (ddiv_Second d Hd).
  destruct (Z.ltb_spec 0 (Z.quot d Second)) as [Hq | Hq].
  - pose proof (proj1 (quot_pos_iff_floor d) Hq) as Hf.
    rewrite (quot_eq_floor_pos d Hf).
    destruct (Z.ltb_spec 0 (d / Second)); [| lia].
    apply wrap64_id. unfold in_int64, minInt64, maxInt64, Second in *.
    pose proof (Z.div_le_upper_bound d 1000000000 9223372036854775806 ltac:(lia) ltac:(lia)).
    lia.
  - destruct (Z.ltb_spec 0 (d / Second)) as [Hf | Hf]; [| reflexivity].
    apply quot_pos_iff_floor in Hf. lia.
Qed.

End Queries.

Section RetryAfterClaims.
Context {E : Type} `{Host E} `{Externals}.
Implicit Types (c : clusterLimitRedis) (ctx : Context) (w : World E).

(** C2. [RetryAfterContext] and [RetryAfter] return at least 1 whatever the
    ring answers; when the delta query succeeds with the delta [d], and
    [secs] is the floor of [d] over one second, the result is [secs + 1]
    if [secs > 0] and 1 otherwise. *)
Theorem RetryAfter_at_least_one c ctx k w :
  1 <= fst (RetryAfterContext c ctx k w) /\
  1 <= fst (RetryAfter c k w) /\
  (forall d : Duration,
     retry_delta c ctx k w = (d, None) ->
     fst (RetryAfterContext c ctx k w) =
     if (0 <? d / Second)%Z then d / Second + 1 else 1).
Proof.
  assert (Hge : forall ctx', 1 <= fst (RetryAfterContext c ctx' k w)).
  { intros ctx'.
    destruct (RetryAfterContext_eq c ctx' k w) as (-> & _).
    pose proof (deltaFrom_value_range c ctx' k (next_reading w) (snd (time_Now w))) as Hr.
    destruct (snd (fst (deltaFrom c ctx' k _ _))); [lia |].
    cbv zeta. rewrite retry_seconds by (apply Hr; reflexivity).
    destruct (Z.ltb_spec 0 (fst (fst (deltaFrom c ctx' k (next_reading w) (snd (time_Now w)))) / Second)); lia. }
  split; [apply Hge |]. split; [apply Hge |].
  intros d Hd. rewrite retry_delta_eq in Hd.
  destruct (RetryAfterContext_eq c ctx k w) as (-> & _).
  pose proof (deltaFrom_value_range c ctx k (next_reading w) (snd (time_Now w))) as Hr.
  rewrite Hd in *. cbn [fst snd] in *.
  apply retry_seconds. apply Hr. reflexivity.
Qed.

End RetryAfterClaims.

Section QueryClaims.
Context {E : Type} `{Host E} `{Externals}.
Implicit Types (c : clusterLimitRedis) (ctx : Context) (w : World E).

Lemma Delta_asked c k w res :
  asked (Delta c k) w res <->
  asked (deltaFrom c Background k (next_reading w)) (snd (time_Now w)) res.
Proof.
  apply asked_transfer.
  - symmetry. apply time_Now_frame.
  - apply Delta_eq.
Qed.

Lemma RetryAfterContext_asked c ctx k w res :
  asked (RetryAfterContext c ctx k) w res <->
  asked (deltaFrom c ctx k (next_reading w)) (snd (time_Now w)) res.
Proof.
  apply asked_transfer.
  - symmetry. apply time_Now_frame.
  - apply RetryAfterContext_eq.
Qed.

Lemma Oldest_asked c k w res :
  asked (Oldest c k) w res <-> asked (oldest c Background k) w res.
Proof. apply asked_transfer; [reflexivity | apply Oldest_eq]. Qed.

(** What [deltaFrom] returns, by the reply [res] its query got. *)
Lemma deltaFrom_by_reply c ctx k (from : Time) w res :
  asked (deltaFrom c ctx k from) w res ->
  (reply_failed res \/ reply_malformed res ->
     fst (fst (deltaFrom c ctx k from w)) = 0 /\
     snd (fst (deltaFrom c ctx k from w)) <> None) /\
  (reply_empty res ->
     fst (deltaFrom c ctx k from w) = (dsub (window c) (Sub from zeroTime), None)) /\
  (forall n, reply_oldest res n ->
     fst (deltaFrom c ctx k from w) = (dsub (window c) (Sub from (Unix0 n)), None)).
Proof.
  intros Hask.
  destruct (deltaFrom_run c ctx k from w) as (res' & Hask' & _ & _ & Hrest).
  rewrite (asked_unique _ _ _ _ Hask Hask'). exact Hrest.
Qed.

Lemma oldest_by_reply c ctx k w res :
  asked (oldest c ctx k) w res ->
  (reply_failed res \/ reply_malformed res ->
     fst (fst (oldest c ctx k w)) = zeroTime /\ snd (fst (oldest c ctx k w)) <> None) /\
  (reply_empty res -> fst (oldest c ctx k w) = (zeroTime, None)) /\
  (forall n, reply_oldest res n -> fst (oldest c ctx k w) = (Unix0 n, None)).
Proof.
  intros Hask.
  destruct (oldest_run c ctx k w) as (res' & Hask' & _ & _ & Hf & He & Hm & Ho).
  rewrite (asked_unique _ _ _ _ Hask Hask').
  split; [intros [Hb | Hb]; auto | split; assumption].
Qed.

(** C3. When the oldest retained entry of the bucket carries the
    timestamp [oldest_ns], the delta from the instant [from] is
    [window - (from - oldest)] in the arithmetic of [time.Duration], and
    is that number exactly when the gap and the difference are
    durations. [Delta] returns this delta from the instant it reads. With
    a window of 10 s and the oldest entry at [t0], [RetryAfterContext]
    called at [t0 + 3 s] returns 8. *)
Theorem delta_is_window_minus_gap c ctx k (from : Time) w res (oldest_ns : Z) :
  reply_oldest res oldest_ns ->
  (asked (deltaFrom c ctx k from) w res ->
     fst (deltaFrom c ctx k from w) =
       (dsub (window c) (Sub from (Unix0 oldest_ns)), None) /\
     (in_int64 (from - oldest_ns) ->
      in_int64 (window c - (from - oldest_ns)) ->
      fst (fst (deltaFrom c ctx k from w)) = window c - (from - oldest_ns))) /\
  (asked (Delta c k) w res ->
     fst (Delta c k w) = dsub (window c) (Sub (next_reading w) (Unix0 oldest_ns))) /\
  (asked (RetryAfterContext c ctx k) w res ->
     window c = 10 * Second ->
     next_reading w = oldest_ns + 3 * Second ->
     fst (RetryAfterContext c ctx k w) = 8).
Proof.
  intros Hold. split; [| split].
  - intros Hask.
    destruct (deltaFrom_by_reply c ctx k from w res Hask) as (_ & _ & Ho).
    rewrite (Ho _ Hold). split; [reflexivity |].
    intros Hgap Hd. cbn [fst]. unfold Unix0, dsub.
    rewrite (Sub_exact _ _ Hgap). apply wrap64_id, Hd.
  - intros Hask. apply Delta_asked in Hask.
    destruct (deltaFrom_by_reply _ _ _ _ _ _ Hask) as (_ & _ & Ho).
    destruct (Delta_eq c k w) as (-> & _).
    rewrite (Ho _ Hold). reflexivity.
  - intros Hask Hw Hnow. apply RetryAfterContext_asked in Hask.
    destruct (deltaFrom_by_reply _ _ _ _ _ _ Hask) as (_ & _ & Ho).
    destruct (RetryAfterContext_eq c ctx k w) as (-> & _).
    rewrite (Ho _ Hold). cbn [fst snd]. rewrite Hw, Hnow. unfold Unix0.
    replace (Sub (oldest_ns + 3 * Second) oldest_ns) with (3 * Second).
    + reflexivity.
    + symmetry. rewrite Sub_exact; [lia |].
      replace (oldest_ns + 3 * Second - oldest_ns) with (3 * Second) by lia.
      unfold in_int64, minInt64, maxInt64, Second. lia.
Qed.

(** C6. When the oldest-entry query returns no element and no error:
    [oldest] and [Oldest] return the zero time, without error, and
    [Delta] returns the window less the gap from the zero time to the
    instant it reads. With a window that is not negative and a clock
    that reads no instant earlier than a full [maxDuration] after the
    zero time (year 293), that gap is [maxDuration]: [Delta] returns
    [window - maxDuration], which is not positive, and
    [RetryAfterContext] returns 1. *)
Theorem empty_bucket c ctx k w res :
  reply_empty res ->
  (asked (oldest c ctx k) w res -> fst (oldest c ctx k w) = (zeroTime, None)) /\
  (asked (Oldest c k) w res -> fst (Oldest c k w) = zeroTime) /\
  (asked (Delta c k) w res ->
     fst (Delta c k w) = dsub (window c) (Sub (next_reading w) zeroTime)) /\
  (0 <= window c <= maxDuration ->
   zeroTime + maxDuration <= next_reading w ->
   (asked (Delta c k) w res ->
      fst (Delta c k w) = window c - maxDuration /\ fst (Delta c k w) <= 0) /\
   (asked (RetryAfterContext c ctx k) w res ->
      fst (RetryAfterContext c ctx k w) = 1)).
Proof.
  intros Hempty. split; [| split; [| split]].
  - intros Hask. destruct (oldest_by_reply _ _ _ _ _ Hask) as (_ & He & _). exact (He Hempty).
  - intros Hask. apply Oldest_asked in Hask.
    destruct (Oldest_eq c k w) as (-> & _).
    destruct (oldest_by_reply _ _ _ _ _ Hask) as (_ & He & _).
    rewrite (He Hempty). reflexivity.
  - intros Hask. apply Delta_asked in Hask.
    destruct (deltaFrom_by_reply _ _ _ _ _ _ Hask) as (_ & He & _).
    destruct (Delta_eq c k w) as (-> & _).
    rewrite (He Hempty). reflexivity.
  - intros Hw Hclock.
    assert (Hd : dsub (window c) (Sub (next_reading w) zeroTime) = window c - maxDuration).
    { rewrite (Sub_zeroTime _ Hclock). apply wrap64_id.
      unfold in_int64, maxDuration, minInt64, maxInt64 in *. lia. }
    split.
    + intros Hask. apply Delta_asked in Hask.
      destruct (deltaFrom_by_reply _ _ _ _ _ _ Hask) as (_ & He & _).
      destruct (Delta_eq c k w) as (-> & _).
      rewrite (He Hempty). cbn [fst snd]. rewrite Hd. split; [reflexivity | lia].
    + intros Hask. apply RetryAfterContext_asked in Hask.
      destruct (deltaFrom_by_reply _ _ _ _ _ _ Hask) as (_ & He & _).
      destruct (RetryAfterContext_eq c ctx k w) as (-> & _).
      rewrite (He Hempty). cbn [fst snd]. rewrite Hd.
      rewrite retry_seconds
        by (unfold in_int64, maxDuration, minInt64, maxInt64 in *; lia).
      destruct (Z.ltb_spec 0 ((window c - maxDuration) / Second)) as [Hpos | _];
        [| reflexivity].
      unfold Second in Hpos.
      pose proof (Z.div_le_upper_bound (window c - maxDuration) 1000000000 0
                    ltac:(lia) ltac:(lia)). lia.
Qed.

(** C7. When the first member the oldest-entry query returns is not a
    string, or is a string that is not the decimal of a 64-bit integer:
    the query reports an error, [Oldest] returns the zero time, and
    [RetryAfterContext] returns 1 and records its timer under the
    [failure] label. *)
Theorem malformed_member c ctx k w res :
  reply_malformed res ->
  (asked (oldest c ctx k) w res ->
     fst (fst (oldest c ctx k w)) = zeroTime /\ snd (fst (oldest c ctx k w)) <> None) /\
  (asked (Oldest c k) w res -> fst (Oldest c k w) = zeroTime) /\
  (asked (RetryAfterContext c ctx k) w res ->
     fst (RetryAfterContext c ctx k w) = 1 /\
     timers (snd (RetryAfterContext c ctx k w)) =
       (timers w ++ [(timer_key c "retryafter" "failure", next_reading w)])%list).
Proof.
  intros Hbad. split; [| split].
  - intros Hask. destruct (oldest_by_reply _ _ _ _ _ Hask) as (Hb & _).
    exact (Hb (or_intror Hbad)).
  - intros Hask. apply Oldest_asked in Hask.
    destruct (Oldest_eq c k w) as (-> & _).
    destruct (oldest_by_reply _ _ _ _ _ Hask) as (Hb & _).
    destruct (Hb (or_intror Hbad)) as [Hz Herr].
    destruct (snd (fst (oldest c Background k w))); [reflexivity | exact Hz].
  - intros Hask. apply RetryAfterContext_asked in Hask.
    destruct (deltaFrom_by_reply _ _ _ _ _ _ Hask) as (Hb & _).
    destruct (Hb (or_intror Hbad)) as [_ Herr].
    destruct (RetryAfterContext_eq c ctx k w) as (-> & _ & _ & ->).
    destruct (deltaFrom_run c ctx k (next_reading w) (snd (time_Now w)))
      as (_ & _ & _ & Ht & _).
    rewrite Ht. destruct (time_Now_frame w) as (_ & _ & ->).
    destruct (snd (fst (deltaFrom c ctx k _ _))); [| congruence].
    split; reflexivity.
Qed.

End QueryClaims.

(* ===================================================================== *)
(** * The admission decision *)
(* ===================================================================== *)

Ltac answer :=
  repeat match goal with
         | |- context [host_ZCard ?a ?b ?h] =>
             destruct (host_ZCard a b h) as [[? [? |]] ?]; cbn
         | |- context [host_ZAdd ?a ?b ?z ?h] =>
             destruct (host_ZAdd a b z h) as [[? [? |]] ?]; cbn
         | |- context [host_Expire ?a ?b ?d ?h] =>
             destruct (host_Expire a b d h) as [[? [? |]] ?]; cbn
         | |- context [(?a <=? ?b)%Z] => destruct (Z.leb_spec a b); cbn
         end.

Ltac counters_done :=
  unfold counter; cbn;
  change (redisMetricsPrefix ++ "total") with "swarm.redis.total";
  change (redisMetricsPrefix ++ "forbids") with "swarm.redis.forbids";
  change (redisMetricsPrefix ++ "allows") with "swarm.redis.allows";
  rewrite ?lookup_insert; repeat case_decide; try congruence; try reflexivity.

Ltac sent_done := unfold sent; cbn; rewrite <- ?app_assoc; reflexivity.

Section Admission.
Context {E : Type} `{Host E} `{Externals}.
Implicit Types (c : clusterLimitRedis) (ctx : Context) (w : World E).

Lemma counter_IncCounter (key key' : string) w :
  counter (snd (IncCounter key w)) key' =
  if decide (key = key') then S (counter w key') else counter w key'.
Proof.
  unfold IncCounter, counter. cbn.
  rewrite lookup_insert. destruct (decide (key = key')); subst; reflexivity.
Qed.

Lemma counter_ext w w' (key : string) :
  counters w' = counters w -> counter w' key = counter w key.
Proof. unfold counter. intros ->. reflexivity. Qed.

Lemma counter_insert w (m : gmap string nat) (key key' : string) (n : nat) :
  default 0%nat (<[key := n]> m !! key') =
  if decide (key = key') then n else default 0%nat (m !! key').
Proof. rewrite lookup_insert. destruct (decide (key = key')); reflexivity. Qed.

#[local] Arguments measureQuery : simpl never.

(** The commands [AllowContext] sends and what it returns, by the answers
    of the ring. *)
Lemma AllowContext_cases c ctx k w :
  let key := prefixKey c (getHashedKey k) in
  let now := next_reading w in
  let prune := CallZRemRangeByScore key "0.0"
     (Sprint_float64 (float64_of_int64 (UnixNano (Add now (dneg (window c)))))) in
  let add := CallZAdd key (mkZ (float64_of_int64 (UnixNano now)) (AnyInt64 (UnixNano now))) in
  let expire := CallExpire key (dadd (window c) Second) in
  let r := AllowContext c ctx k w in
  counter (snd r) "swarm.redis.total" = S (counter w "swarm.redis.total") /\
  ((exists rp rc,
      sent w (snd r) [prune rp; CallZCard key rc] /\
      int_err rp = None /\ int_err rc = None /\ maxHits c <= int_val rc /\
      fst r = false /\
      counter (snd r) "swarm.redis.forbids" = S (counter w "swarm.redis.forbids")) \/
   (exists checks ra re,
      sent w (snd r) (checks ++ [add ra; expire re]) /\
      fst r = true /\
      counter (snd r) "swarm.redis.forbids" = counter w "swarm.redis.forbids" /\
      ((exists rp, checks = [prune rp] /\ int_err rp <> None) \/
       (exists rp rc, checks = [prune rp; CallZCard key rc] /\ int_err rp = None /\
                      (int_err rc <> None \/ int_val rc < maxHits c))))).
Proof.
  intros key now prune add expire r. subst r prune add expire.
  unfold AllowContext, AllowContext_body, allowCheckCard, next_reading, startSpan in *.
  fold key. subst now.
  unfold mbind, M_bind, mret, M_ret, time_Now, ring_ZRemRangeByScore, ring_ZCard,
    ring_ZAdd, ring_Expire, with_host.
  cbn [IncCounter fst snd host calls].
  destruct (host_Now (host w)) as [now h1]. cbn [fst snd].
  split_ctx ctx; cbn.
  all: destruct (host_ZRemRangeByScore _ key _ _ h1) as [[vp [ep |]] h2]; cbn.
  all: answer.
  all: rewrite measureQuery_allow; cbn.
  all: (split; [counters_done |]).
  all: first
    [ solve [ left; do 2 eexists; split; [sent_done |];
              cbn; repeat split; try assumption; counters_done ]
    | solve [ right; eexists [_], _, _; split; [sent_done |];
              cbn; repeat split; [counters_done |];
              left; eexists; split; [reflexivity | discriminate] ]
    | solve [ right; eexists [_; _], _, _; split; [sent_done |];
              cbn; repeat split; [counters_done |];
              right; do 2 eexists; split; [reflexivity |]; split; [reflexivity |];
              first [left; discriminate | right; cbn; lia] ]
    ].
Qed.

(** C1. An [AllowContext] call (and [Allow], which is [AllowContext] with
    the background context) first sends the prune,
    [ZRemRangeByScore(key, "0.0", now - window)]. If the prune and the
    count both succeed and the count is at least [maxHits], the call
    returns false, increments [swarm.redis.forbids] and sends no [ZAdd].
    In every other case, a count below [maxHits] or a failure of the
    prune or of the count, it returns true and sends
    [ZAdd(key, score = now, member = now)]. *)
Theorem allow_decision c ctx k w :
  let key := prefixKey c (getHashedKey k) in
  let now := next_reading w in
  let nowNanos := UnixNano now in
  let clearBefore := UnixNano (Add now (dneg (window c))) in
  let r := AllowContext c ctx k w in
  exists cs,
    sent w (snd r) cs /\
    (exists rp rest,
       cs = CallZRemRangeByScore key "0.0"
              (Sprint_float64 (float64_of_int64 clearBefore)) rp :: rest) /\
    (forall n, checked_count cs = Some n -> maxHits c <= n ->
       fst r = false /\
       counter (snd r) "swarm.redis.forbids" = S (counter w "swarm.redis.forbids") /\
       Forall (fun call => is_ZAdd call = false) cs) /\
    ((forall n, checked_count cs = Some n -> n < maxHits c) ->
       fst r = true /\
       exists res,
         In (CallZAdd key (mkZ (float64_of_int64 nowNanos) (AnyInt64 nowNanos)) res) cs).
Proof.
  intros key now nowNanos clearBefore r.
  destruct (AllowContext_cases c ctx k w) as [_ Hcases].
  fold key now r in Hcases. subst nowNanos clearBefore.
  destruct Hcases as [(rp & rc & Hs & Hp & Hc & Hn & Hr & Hf)
                     | (checks & ra & re & Hs & Hr & Hf & Hchecks)].
  - eexists. split; [exact Hs |]. split; [eauto |].
    assert (Hcount : checked_count
              [CallZRemRangeByScore key "0.0"
                 (Sprint_float64 (float64_of_int64 (UnixNano (Add now (dneg (window c)))))) rp;
               CallZCard key rc] = Some (int_val rc))
      by (cbn; rewrite Hp, Hc; reflexivity).
    split.
    + intros n _ _. split; [exact Hr |]. split; [exact Hf |].
      repeat constructor.
    + intros Hlt. specialize (Hlt _ Hcount). lia.
  - eexists. split; [exact Hs |].
    destruct Hchecks as [(rp & -> & Hp) | (rp & rc & -> & Hp & Hc)]; cbn [app].
    + split; [eauto |]. split.
      * intros n Hn. cbn in Hn. discriminate.
      * intros _. split; [exact Hr |]. exists ra. cbn. auto.
    + split; [eauto |]. split.
      * intros n Hn Hge. cbn in Hn. rewrite Hp in Hn. cbn in Hn.
        destruct Hc as [Hc | Hc].
        -- destruct (int_err rc); [discriminate | congruence].
        -- destruct (int_err rc); [discriminate |]. cbn in Hn. inversion Hn. lia.
      * intros _. split; [exact Hr |]. exists ra. cbn. auto.
Qed.

(** Neither the oldest-entry query nor [RetryAfterContext] touches a counter. *)
Lemma RetryAfterContext_counters c ctx k w :
  counters (snd (RetryAfterContext c ctx k w)) = counters w.
Proof.
  destruct (RetryAfterContext_eq c ctx k w) as (_ & _ & -> & _).
  destruct (deltaFrom_run c ctx k (next_reading w) (snd (time_Now w)))
    as (_ & _ & -> & _).
  apply time_Now_frame.
Qed.

(** C5, amended. Every [AllowContext] call, and so every [Allow] call,
    increments [swarm.redis.total] by exactly one. [RetryAfterContext]
    and [RetryAfter] leave every counter as it was. *)
Theorem total_counted_by_Allow_only c ctx k w :
  counter (snd (AllowContext c ctx k w)) "swarm.redis.total" =
    S (counter w "swarm.redis.total") /\
  counter (snd (Allow c k w)) "swarm.redis.total" =
    S (counter w "swarm.redis.total") /\
  counters (snd (RetryAfterContext c ctx k w)) = counters w /\
  counters (snd (RetryAfter c k w)) = counters w.
Proof.
  split; [apply (AllowContext_cases c ctx k w) |].
  split; [apply (AllowContext_cases c Background k w) |].
  split; apply RetryAfterContext_counters.
Qed.

End Admission.


Section CleanAdmit.
Context {E : Type} `{Host E} `{Externals}.
Implicit Types (c : clusterLimitRedis) (ctx : Context) (w : World E).

#[local] Arguments measureQuery : simpl never.

(** An admitted call whose commands all succeeded went through the four
    commands in order. *)
Lemma AllowContext_clean c ctx k w :
  let key := prefixKey c (getHashedKey k) in
  let now := next_reading w in
  let r := AllowContext c ctx k w in
  fst r = true ->
  no_ring_error w (snd r) ->
  exists rp rc ra re h2 h3 h4,
    host_ZRemRangeByScore ctx key "0.0"
      (Sprint_float64 (float64_of_int64 (UnixNano (Add now (dneg (window c))))))
      (snd (host_Now (host w))) = (rp, h2) /\
    host_ZCard ctx key h2 = (rc, h3) /\
    host_ZAdd ctx key (mkZ (float64_of_int64 (UnixNano now)) (AnyInt64 (UnixNano now))) h3
      = (ra, h4) /\
    host_Expire ctx key (dadd (window c) Second) h4 = (re, host (snd r)) /\
    int_err ra = None /\ bool_err re = None /\
    sent w (snd r)
      [ CallZRemRangeByScore key "0.0"
          (Sprint_float64 (float64_of_int64 (UnixNano (Add now (dneg (window c)))))) rp;
        CallZCard key rc;
        CallZAdd key (mkZ (float64_of_int64 (UnixNano now)) (AnyInt64 (UnixNano now))) ra;
        CallExpire key (dadd (window c) Second) re ].
Proof.
  intros key now r. subst r.
  unfold AllowContext, AllowContext_body, allowCheckCard, next_reading, startSpan in *.
  fold key. subst now.
  unfold mbind, M_bind, mret, M_ret, time_Now, ring_ZRemRangeByScore, ring_ZCard,
    ring_ZAdd, ring_Expire, with_host.
  cbn [IncCounter fst snd host calls].
  destruct (host_Now (host w)) as [now h1]. cbn [fst snd].
  split_ctx ctx; cbn.
  all: destruct (host_ZRemRangeByScore _ key _ _ h1) as [[vp [ep |]] h2] eqn:Hp; cbn.
  all: repeat match goal with
         | |- context [host_ZCard ?a ?b ?h] =>
             destruct (host_ZCard a b h) as [[? [? |]] ?] eqn:?; cbn
         | |- context [host_ZAdd ?a ?b ?z ?h] =>
             destruct (host_ZAdd a b z h) as [[? [? |]] ?] eqn:?; cbn
         | |- context [host_Expire ?a ?b ?d ?h] =>
             destruct (host_Expire a b d h) as [[? [? |]] ?] eqn:?; cbn
         | |- context [(?a <=? ?b)%Z] => destruct (Z.leb_spec a b); cbn
         end.
  all: rewrite measureQuery_allow; cbn.
  all: intros Htrue (cs & Hs & Hok); try discriminate.
  all: unfold sent in Hs; cbn in Hs; rewrite <- ?app_assoc in Hs;
       apply app_inv_head in Hs; subst cs.
  all: repeat (apply Forall_cons in Hok as [? Hok]); cbn in *; try discriminate.
  all: do 7 eexists; repeat split; eauto; sent_done.
Qed.

End CleanAdmit.

(* ===================================================================== *)
(** * On the reference ring *)
(* ===================================================================== *)

Section SimFacts.
Context `{Externals}.
Variable parseScore : string -> option float64.

Lemma pop_fault_store (s : Sim.State) : Sim.store (snd (Sim.pop_fault s)) = Sim.store s.
Proof. unfold Sim.pop_fault. destruct (Sim.faults s); reflexivity. Qed.

Lemma Sim_ZAdd_ok ctx (key : string) (z : Z_) (s s' : Sim.State) (r : IntCmd) :
  Sim.ZAdd ctx key z s = (r, s') -> int_err r = None ->
  exists b, Sim.store s' !! key = Some b /\
            In (Sim.wire (Member z), Score z) (Sim.entries b).
Proof.
  unfold Sim.ZAdd. destruct (Sim.pop_fault s) as [[e |] s1]; intros Heq Herr.
  - inversion Heq; subst. discriminate.
  - inversion Heq; subst. clear Heq. cbn.
    unfold Sim.put_entries.
    destruct (_ ++ [_])%list as [| x l] eqn:Hl.
    + apply app_eq_nil in Hl as [_ Hl]. discriminate.
    + rewrite lookup_insert_eq. eexists. split; [reflexivity |].
      rewrite <- Hl. cbn [Sim.entries]. apply in_or_app. right. left. reflexivity.
Qed.

Lemma Sim_Expire_ok ctx (key : string) (d : Duration) (s s' : Sim.State)
    (r : BoolCmd) (b : Sim.Bucket) :
  Sim.Expire ctx key d s = (r, s') -> bool_err r = None ->
  Sim.store s !! key = Some b ->
  Sim.store s' !! key = Some (Sim.mkBucket (Sim.entries b) (Some d)).
Proof.
  unfold Sim.Expire. pose proof (pop_fault_store s) as Hst.
  destruct (Sim.pop_fault s) as [[e |] s1]; cbn in Hst; intros Heq Herr Hb.
  - inversion Heq; subst. discriminate.
  - rewrite Hst, Hb in Heq. inversion Heq; subst. cbn.
    apply lookup_insert_eq.
Qed.

(** C4. After an [AllowContext] call that returns true with no command
    failing, the call has sent [ZAdd] with the admission instant in
    nanoseconds as member and as score, and [Expire] with
    [window + time.Second]; on the reference ring the bucket of the key
    then holds the member that is the decimal of that instant, with the
    [float64] of the same value as its score, and the TTL of the bucket
    is the one given to [Expire], which is the window plus one second
    whenever that sum is a duration. *)
Theorem allowed_entry_and_ttl c ctx k (w : World Sim.State) :
  let r := @AllowContext _ (Sim.sim_host parseScore) _ c ctx k w in
  let key := prefixKey c (getHashedKey k) in
  let nowNanos := UnixNano (Sim.clock (host w)) in
  fst r = true ->
  no_ring_error w (snd r) ->
  (exists rp rc ra re,
     sent w (snd r)
       [ CallZRemRangeByScore key "0.0"
           (Sprint_float64
              (float64_of_int64 (UnixNano (Add (Sim.clock (host w)) (dneg (window c)))))) rp;
         CallZCard key rc;
         CallZAdd key (mkZ (float64_of_int64 nowNanos) (AnyInt64 nowNanos)) ra;
         CallExpire key (dadd (window c) Second) re ]) /\
  In (Sim.FormatInt nowNanos, float64_of_int64 nowNanos)
     (Sim.entries_of (host (snd r)) key) /\
  Sim.ttl_of (host (snd r)) key = Some (dadd (window c) Second) /\
  (in_int64 (window c + Second) ->
   Sim.ttl_of (host (snd r)) key = Some (window c + Second)).
Proof.
  intros r key nowNanos Htrue Hok.
  destruct (@AllowContext_clean _ (Sim.sim_host parseScore) _ c ctx k w Htrue Hok)
    as (rp & rc & ra & re & h2 & h3 & h4 & _ & _ & Hadd & Hexp & Ha & He & Hsent).
  cbn in Hadd, Hexp.
  destruct (Sim_ZAdd_ok _ _ _ _ _ _ Hadd Ha) as (b & Hb & Hin).
  pose proof (Sim_Expire_ok _ _ _ _ _ _ _ Hexp He Hb) as Hb'.
  fold r in Hb'. fold key in Hb'.
  split; [exists rp, rc, ra, re; exact Hsent |].
  unfold Sim.entries_of, Sim.ttl_of. rewrite Hb'. cbn.
  split; [exact Hin |]. split; [reflexivity |].
  intros Hr. unfold dadd. rewrite wrap64_id by exact Hr. reflexivity.
Qed.

End SimFacts.

(* ===================================================================== *)
(** * The public surface *)
(* ===================================================================== *)

Section Surface.
Context {E : Type} `{Host E} `{Externals}.
Implicit Types (c : clusterLimitRedis) (ctx : Context) (w : World E).

Lemma reply_cases (res : ZSliceCmd) :
  reply_failed res \/ reply_empty res \/ reply_malformed res \/
  exists n, reply_oldest res n.
Proof.
  unfold reply_failed, reply_empty, reply_malformed, reply_oldest, malformed.
  destruct res as [[| [sc m] zs] [e |]]; cbn; try (left; discriminate).
  - right; left. auto.
  - right; right.
    destruct m as [| s | n | f]; try (left; split; [reflexivity |]; eexists _, _; split; [reflexivity | exact I]).
    destruct (decimal_int64 s) as [n |] eqn:Hd.
    + right. exists n. split; [reflexivity |]. eexists _, _, _. eauto.
    + left. split; [reflexivity |]. eexists _, _. split; [reflexivity | exact Hd].
Qed.

(** An error of [oldest] comes with the zero time. *)
Lemma oldest_error_zero c ctx k w :
  snd (fst (oldest c ctx k w)) <> None -> fst (fst (oldest c ctx k w)) = zeroTime.
Proof.
  destruct (oldest_run c ctx k w) as (res & _ & _ & _ & Hf & He & Hm & Ho).
  intros Herr.
  destruct (reply_cases res) as [Hr | [Hr | [Hr | [n Hr]]]].
  - apply Hf, Hr.
  - rewrite (He Hr). reflexivity.
  - apply Hm, Hr.
  - rewrite (Ho _ Hr) in Herr. cbn in Herr. congruence.
Qed.

(** C8, amended. [Allow] and [RetryAfter] have a [-Context] variant and
    are that variant with the background context: the two forms return
    the same result and leave the same world. [Delta] and [Oldest] have
    no [-Context] variant; they return the value that [deltaFrom] and
    [oldest] compute with the background context. *)
Theorem convenience_forms c k w :
  (has_Context_variant "Allow" = true /\
   Allow c k w = AllowContext c Background k w) /\
  (has_Context_variant "RetryAfter" = true /\
   RetryAfter c k w = RetryAfterContext c Background k w) /\
  (has_Context_variant "Delta" = false /\
   fst (Delta c k w) =
   fst (fst (deltaFrom c Background k (next_reading w) (snd (time_Now w))))) /\
  (has_Context_variant "Oldest" = false /\
   fst (Oldest c k w) = fst (fst (oldest c Background k w))).
Proof.
  split; [split; reflexivity |]. split; [split; reflexivity |].
  split; (split; [reflexivity |]).
  - destruct (Delta_eq c k w) as (-> & _).
    rewrite deltaFrom_eq. cbn [fst snd].
    destruct (snd (fst (oldest c Background k (snd (time_Now w))))); reflexivity.
  - destruct (Oldest_eq c k w) as (-> & _).
    pose proof (oldest_error_zero c Background k w) as Hz.
    destruct (snd (fst (oldest c Background k w))); [| reflexivity].
    symmetry. apply Hz. discriminate.
Qed.

(** C9. [Resize] and [Close] do nothing: each returns with the world as
    it was, and so does every sequence of them, in any order and of any
    length. The limiter is not changed either: no method of the
    embedding returns a new limiter. *)
Theorem noops_change_nothing c (l : list NoopCall) w :
  run_noops c l w = (tt, w) /\
  (forall key n, Resize c key n w = (tt, w)) /\
  Close c w = (tt, w).
Proof.
  split; [| split; [intros; reflexivity | reflexivity]].
  induction l as [| call l IH]; [reflexivity |].
  cbn [run_noops]. unfold mbind, M_bind.
  destruct call; cbn; exact IH.
Qed.

(** C10. When the oldest-entry query of a [Delta] call fails, by an
    error of the ring or by a malformed member, [Delta] returns the zero
    duration. A call without any error returns zero as well when the
    oldest entry is exactly one window old, so the value does not tell
    the two apart. *)
Theorem Delta_error_is_zero c k w res :
  asked (Delta c k) w res ->
  reply_failed res \/ reply_malformed res ->
  fst (Delta c k w) = 0 /\
  exists (c' : clusterLimitRedis) (k' : string) (w' : World Sim.State)
         (res' : ZSliceCmd) (n : Z),
    asked (Examples.demo_Delta c' k') w' res' /\
    reply_oldest res' n /\
    fst (Examples.demo_Delta c' k' w') = 0.
Proof.
  intros Hask Hbad. split.
  - apply Delta_asked in Hask.
    destruct (deltaFrom_by_reply _ _ _ _ _ _ Hask) as (Hb & _).
    destruct (Hb Hbad) as [Hz Herr].
    destruct (Delta_eq c k w) as (-> & _).
    destruct (snd (fst (deltaFrom c Background k _ _))); [reflexivity | exact Hz].
  - exists Examples.lim, "u1", Examples.w_boundary, Examples.reply_one, Examples.T0.
    split; [| split].
    + exists Examples.key_u1, (Examples.query (Examples.T0 + 10 * Second)).
      vm_compute. reflexivity.
    + split; [reflexivity |]. eexists _, _, _.
      split; [reflexivity |]. split; [reflexivity |]. vm_compute. reflexivity.
    + vm_compute. reflexivity.
Qed.

End Surface.

(* ===================================================================== *)
(** * The claims at concrete worlds *)
(* ===================================================================== *)

Section Concrete.
Import Examples.

(** The scenarios of the design run on the reference ring: three hits in
    ten seconds for the group [g]. *)

Example basic_allow_deny :
  fst (allow_at lim "u1"
         [T0; T0 + Second; T0 + 2 * Second; T0 + 3 * Second; T0 + 11 * Second] w_empty)
  = [true; true; true; false; true].
Proof. vm_compute. reflexivity. Qed.

Example retry_after_floor :
  let w := snd (allow_at lim "u1"
                  [T0; T0 + Second; T0 + 2 * Second; T0 + 3 * Second] w_empty) in
  fst (demo_RetryAfter lim "u1" (at_time (T0 + 3 * Second) w)) = 8.
Proof. vm_compute. reflexivity. Qed.

Example unused_key :
  fst (demo_RetryAfter lim "unused" w_empty) = 1 /\
  fst (demo_Oldest lim "unused" w_empty) = zeroTime /\
  fst (demo_Delta lim "unused" w_empty) <= 0.
Proof. vm_compute. repeat split; discriminate. Qed.

Example fail_open :
  let r := demo_Allow lim "u2" (world T0 [] [None; Some (ErrRing "i/o timeout")]) in
  fst r = true /\ timers (snd r) = [("swarm.redis.query.allow.failure.g", T0)].
Proof. vm_compute. split; reflexivity. Qed.

Example key_separation :
  let ms := Millisecond in
  let '(a, w1) := allow_at lim "a" [T0; T0 + ms; T0 + 2 * ms] w_empty in
  let '(b, w2) := allow_at lim "b" [T0 + 3 * ms; T0 + 4 * ms; T0 + 5 * ms] w1 in
  a = [true; true; true] /\ b = [true; true; true] /\
  fst (demo_Allow lim "a" (at_time (T0 + 6 * ms) w2)) = false /\
  fst (demo_Allow lim "b" (at_time (T0 + 6 * ms) w2)) = false.
Proof. vm_compute. repeat split; reflexivity. Qed.

Example ParseInt_examples :
  ParseInt "1700000000000000000" = (1700000000000000000, None) /\
  ParseInt "-9223372036854775808" = (-9223372036854775808, None) /\
  snd (ParseInt "9223372036854775808") = Some (ErrNum "ParseInt" "9223372036854775808" ErrRange) /\
  snd (ParseInt "") <> None /\ snd (ParseInt "+") <> None /\
  snd (ParseInt "12a") <> None /\ snd (ParseInt "1_000") <> None /\
  snd (ParseInt " 1") <> None.
Proof. vm_compute. repeat split; discriminate. Qed.

(** C5 as stated fails: a [RetryAfter] call leaves [swarm.redis.total]
    at zero. *)
Lemma RetryAfter_leaves_total :
  counter w_one "swarm.redis.total" = 0%nat /\
  counter (snd (demo_RetryAfter lim "u1" w_one)) "swarm.redis.total" = 0%nat /\
  counter (snd (demo_RetryAfter lim "u1" w_one)) "swarm.redis.total" <>
    S (counter w_one "swarm.redis.total").
Proof. vm_compute. repeat split; discriminate. Qed.

(** C8 as stated fails: of the four public operations, [Delta] and
    [Oldest] have no [-Context] variant. *)
Lemma Delta_Oldest_without_Context_variant :
  ~ (forall op : string,
       In op ["Allow"; "RetryAfter"; "Delta"; "Oldest"] ->
       has_Context_variant op = true).
Proof.
  intros Hall. specialize (Hall "Delta"). cbn in Hall.
  assert (Hf : has_Context_variant "Delta" = true) by (apply Hall; auto).
  vm_compute in Hf. discriminate.
Qed.

Lemma allow_decision_witness :
  fst (demo_AllowContext lim Background "u1" w_full) = false /\
  fst (demo_AllowContext lim Background "u1" w_empty) = true.
Proof.
  split.
  - destruct (@allow_decision _ Sim.demo_host Sim.demo_externals lim Background "u1" w_full)
      as (cs & Hs & _ & Hdeny & _).
    unfold sent in Hs. vm_compute in Hs. subst cs.
    apply (Hdeny 3); [reflexivity | cbn; lia].
  - destruct (@allow_decision _ Sim.demo_host Sim.demo_externals lim Background "u1" w_empty)
      as (cs & Hs & _ & _ & Hallow).
    unfold sent in Hs. vm_compute in Hs. subst cs.
    apply Hallow. intros n Hn. vm_compute in Hn. inversion Hn. cbn. lia.
Defined.

Lemma RetryAfter_at_least_one_witness :
  demo_retry_delta lim Background "u1" w_one = (7 * Second, None) /\
  fst (demo_RetryAfterContext lim Background "u1" w_one) = 8.
Proof.
  assert (Hd : @retry_delta _ Sim.demo_host Sim.demo_externals lim Background "u1" w_one
               = (7 * Second, None)) by (vm_compute; reflexivity).
  split; [exact Hd |].
  exact (proj2 (proj2 (@RetryAfter_at_least_one _ Sim.demo_host Sim.demo_externals
                         lim Background "u1" w_one)) _ Hd).
Defined.

Lemma delta_is_window_minus_gap_witness :
  reply_oldest reply_one T0 /\
  asked (demo_deltaFrom lim Background "u1" (T0 + 3 * Second)) w_one reply_one /\
  asked (demo_Delta lim "u1") w_one reply_one /\
  asked (demo_RetryAfterContext lim Background "u1") w_one reply_one /\
  fst (demo_deltaFrom lim Background "u1" (T0 + 3 * Second) w_one) = (7 * Second, None) /\
  fst (demo_Delta lim "u1" w_one) = 7 * Second /\
  fst (demo_RetryAfterContext lim Background "u1" w_one) = 8.
Proof.
  assert (Hold : reply_oldest reply_one T0).
  { split; [reflexivity |]. eexists _, _, _.
    split; [reflexivity |]. split; [reflexivity |]. vm_compute. reflexivity. }
  assert (Ha1 : asked (demo_deltaFrom lim Background "u1" (T0 + 3 * Second)) w_one reply_one)
    by (exists key_u1, (query (T0 + 3 * Second)); vm_compute; reflexivity).
  assert (Ha2 : asked (demo_Delta lim "u1") w_one reply_one)
    by (exists key_u1, (query (T0 + 3 * Second)); vm_compute; reflexivity).
  assert (Ha3 : asked (demo_RetryAfterContext lim Background "u1") w_one reply_one)
    by (exists key_u1, (query (T0 + 3 * Second)); vm_compute; reflexivity).
  destruct (@delta_is_window_minus_gap _ Sim.demo_host Sim.demo_externals
              lim Background "u1" (T0 + 3 * Second) w_one reply_one T0 Hold)
    as (H1 & H2 & H3).
  split; [exact Hold |]. split; [exact Ha1 |]. split; [exact Ha2 |]. split; [exact Ha3 |].
  split; [exact (proj1 (H1 Ha1)) |]. split; [exact (H2 Ha2) |].
  apply (H3 Ha3); reflexivity.
Defined.

Lemma allowed_entry_and_ttl_witness :
  fst (demo_AllowContext lim Background "u1" w_empty) = true /\
  no_ring_error w_empty (snd (demo_AllowContext lim Background "u1" w_empty)) /\
  In (entry T0)
     (Sim.entries_of (host (snd (demo_AllowContext lim Background "u1" w_empty))) key_u1) /\
  Sim.ttl_of (host (snd (demo_AllowContext lim Background "u1" w_empty))) key_u1
    = Some (11 * Second).
Proof.
  assert (Ht : fst (demo_AllowContext lim Background "u1" w_empty) = true)
    by (vm_compute; reflexivity).
  assert (Hok : no_ring_error w_empty (snd (demo_AllowContext lim Background "u1" w_empty))).
  { eexists. split; [unfold sent; cbn [calls w_empty world app]; reflexivity |].
    vm_compute. repeat constructor. }
  destruct (@allowed_entry_and_ttl Sim.demo_externals Sim.demo_parseScore
              lim Background "u1" w_empty Ht Hok) as (_ & H1 & H2 & _).
  split; [exact Ht |]. split; [exact Hok |]. split; [exact H1 | exact H2].
Defined.

Lemma empty_bucket_witness :
  reply_empty reply_none /\
  0 <= window lim <= maxDuration /\
  zeroTime + maxDuration <= demo_next_reading w_empty /\
  asked (demo_oldest lim Background "u1") w_empty reply_none /\
  asked (demo_Oldest lim "u1") w_empty reply_none /\
  asked (demo_Delta lim "u1") w_empty reply_none /\
  asked (demo_RetryAfterContext lim Background "u1") w_empty reply_none /\
  fst (demo_oldest lim Background "u1" w_empty) = (zeroTime, None) /\
  fst (demo_Oldest lim "u1" w_empty) = zeroTime /\
  fst (demo_Delta lim "u1" w_empty) = 10 * Second - maxDuration /\
  fst (demo_RetryAfterContext lim Background "u1" w_empty) = 1.
Proof.
  assert (He : reply_empty reply_none) by (split; reflexivity).
  assert (Hw : 0 <= window lim <= maxDuration) by (vm_compute; split; discriminate).
  assert (Hc : zeroTime + maxDuration <= @next_reading _ Sim.demo_host w_empty)
    by (vm_compute; discriminate).
  assert (Ha1 : asked (demo_oldest lim Background "u1") w_empty reply_none)
    by (exists key_u1, (query T0); vm_compute; reflexivity).
  assert (Ha2 : asked (demo_Oldest lim "u1") w_empty reply_none)
    by (exists key_u1, (query T0); vm_compute; reflexivity).
  assert (Ha3 : asked (demo_Delta lim "u1") w_empty reply_none)
    by (exists key_u1, (query T0); vm_compute; reflexivity).
  assert (Ha4 : asked (demo_RetryAfterContext lim Background "u1") w_empty reply_none)
    by (exists key_u1, (query T0); vm_compute; reflexivity).
  destruct (@empty_bucket _ Sim.demo_host Sim.demo_externals
              lim Background "u1" w_empty reply_none He) as (H1 & H2 & _ & H3).
  destruct (H3 Hw Hc) as (H4 & H5).
  repeat (split; [assumption |]).
  split; [exact (H1 Ha1) |]. split; [exact (H2 Ha2) |].
  split; [exact (proj1 (H4 Ha3)) | exact (H5 Ha4)].
Defined.

Lemma malformed_member_witness :
  reply_malformed reply_garbled /\
  asked (demo_oldest lim Background "u1") w_garbled reply_garbled /\
  asked (demo_Oldest lim "u1") w_garbled reply_garbled /\
  asked (demo_RetryAfterContext lim Background "u1") w_garbled reply_garbled /\
  snd (fst (demo_oldest lim Background "u1" w_garbled)) <> None /\
  fst (demo_Oldest lim "u1" w_garbled) = zeroTime /\
  fst (demo_RetryAfterContext lim Background "u1" w_garbled) = 1 /\
  timers (snd (demo_RetryAfterContext lim Background "u1" w_garbled)) =
    [("swarm.redis.query.retryafter.failure.g", T0)].
Proof.
  assert (Hm : reply_malformed reply_garbled).
  { split; [reflexivity |]. eexists _, _. split; [reflexivity |]. vm_compute. reflexivity. }
  assert (Ha1 : asked (demo_oldest lim Background "u1") w_garbled reply_garbled)
    by (exists key_u1, (query T0); vm_compute; reflexivity).
  assert (Ha2 : asked (demo_Oldest lim "u1") w_garbled reply_garbled)
    by (exists key_u1, (query T0); vm_compute; reflexivity).
  assert (Ha3 : asked (demo_RetryAfterContext lim Background "u1") w_garbled reply_garbled)
    by (exists key_u1, (query T0); vm_compute; reflexivity).
  destruct (@malformed_member _ Sim.demo_host Sim.demo_externals
              lim Background "u1" w_garbled reply_garbled Hm) as (H1 & H2 & H3).
  repeat (split; [assumption |]).
  split; [exact (proj2 (H1 Ha1)) |]. split; [exact (H2 Ha2) |].
  split; [exact (proj1 (H3 Ha3)) | exact (proj2 (H3 Ha3))].
Defined.

Lemma Delta_error_is_zero_witness :
  asked (demo_Delta lim "u1") w_down reply_down /\
  (reply_failed reply_down \/ reply_malformed reply_down) /\
  fst (demo_Delta lim "u1" w_down) = 0.
Proof.
  assert (Ha : asked (demo_Delta lim "u1") w_down reply_down)
    by (exists key_u1, (query T0); vm_compute; reflexivity).
  assert (Hf : reply_failed reply_down \/ reply_malformed reply_down)
    by (left; discriminate).
  split; [exact Ha |]. split; [exact Hf |].
  exact (proj1 (@Delta_error_is_zero _ Sim.demo_host Sim.demo_externals
                  lim "u1" w_down reply_down Ha Hf)).
Defined.

End Concrete.

(* ===================================================================== *)
(** * Metrics, tracing and commands of a call *)
(* ===================================================================== *)

Section AllowEffects.
Context {E : Type} `{Host E} `{Externals}.
Implicit Types (c : clusterLimitRedis) (ctx : Context) (w : World E).

#[local] Arguments measureQuery : simpl never.

(** Everything an [AllowContext] call leaves in the metrics sink and the
    tracer, by the commands it sent. *)
Lemma AllowContext_effects c ctx k w :
  let r := AllowContext c ctx k w in
  exists cs,
    sent w (snd r) cs /\
    timers (snd r) =
      (timers w ++ [(timer_key c "allow" (label (any_failed cs)), next_reading w)])%list /\
    spans (snd r) = (spans w ++ spans_for c ctx cs)%list /\
    counter (snd r) "swarm.redis.allows" =
      (if expire_ok cs then S (counter w "swarm.redis.allows")
       else counter w "swarm.redis.allows") /\
    counter (snd r) "swarm.redis.forbids" =
      (if fst r then counter w "swarm.redis.forbids"
       else S (counter w "swarm.redis.forbids")) /\
    (forall key, key <> "swarm.redis.total" -> key <> "swarm.redis.allows" ->
                 key <> "swarm.redis.forbids" -> counter (snd r) key = counter w key).
Proof.
  intros r. subst r.
  unfold AllowContext, AllowContext_body, allowCheckCard, next_reading, startSpan, spans_for, ctx_parent in *.
  unfold mbind, M_bind, mret, M_ret, time_Now, ring_ZRemRangeByScore, ring_ZCard,
    ring_ZAdd, ring_Expire, with_host.
  cbn [IncCounter fst snd host calls].
  destruct (host_Now (host w)) as [now h1]. cbn [fst snd].
  split_ctx ctx; cbn.
  all: destruct (host_ZRemRangeByScore _ _ _ _ h1) as [[vp [ep |]] h2]; cbn.
  all: answer.
  all: rewrite measureQuery_allow; cbn.
  all: eexists; split; [sent_done |].
  all: cbn; rewrite <- ?app_assoc; cbn.
  all: repeat split; try reflexivity; try counters_done.
  all: try (rewrite app_nil_r; reflexivity).
  all: intros; counters_done.
Qed.

(** X1. An [AllowContext] call records exactly one timer, under the
    [allow] key of its group, started at the instant the call read; its
    label is [failure] exactly when one of the commands the call sent
    was answered with an error, and [success] otherwise. *)
Theorem AllowContext_timer c ctx k w :
  exists cs,
    sent w (snd (AllowContext c ctx k w)) cs /\
    timers (snd (AllowContext c ctx k w)) =
      (timers w ++ [(timer_key c "allow" (if any_failed cs then "failure" else "success"),
                     next_reading w)])%list.
Proof.
  destruct (AllowContext_effects c ctx k w) as (cs & Hs & Ht & _).
  exists cs. split; [exact Hs |]. rewrite Ht. unfold label. reflexivity.
Qed.

(** X2. Of the counters, an [AllowContext] call changes only
    [swarm.redis.total], [swarm.redis.allows] and [swarm.redis.forbids].
    [forbids] goes up by one exactly when the call returns false;
    [allows] goes up by one exactly when [Expire] was sent and
    succeeded, so a call that returns true after a failed [Expire]
    counts in neither. *)
Theorem AllowContext_counters c ctx k w :
  let r := AllowContext c ctx k w in
  exists cs,
    sent w (snd r) cs /\
    counter (snd r) "swarm.redis.forbids" =
      (if fst r then counter w "swarm.redis.forbids"
       else S (counter w "swarm.redis.forbids")) /\
    counter (snd r) "swarm.redis.allows" =
      (if expire_ok cs then S (counter w "swarm.redis.allows")
       else counter w "swarm.redis.allows") /\
    (expire_ok cs = true -> fst r = true) /\
    (forall key, key <> "swarm.redis.total" -> key <> "swarm.redis.allows" ->
                 key <> "swarm.redis.forbids" -> counter (snd r) key = counter w key).
Proof.
  intros r.
  destruct (AllowContext_effects c ctx k w) as (cs & Hs & _ & _ & Ha & Hf & Ho).
  destruct (AllowContext_cases c ctx k w) as
    [_ [(rp & rc & Hs' & _ & _ & _ & Hr & _) | (checks & ra & re & _ & Hr & _)]].
  - exists cs. fold r in Hs, Ha, Hf, Ho, Hs', Hr.
    repeat (split; [assumption |]). split; [| exact Ho].
    unfold sent in Hs, Hs'. rewrite Hs in Hs'. apply app_inv_head in Hs'. subst cs.
    cbn. discriminate.
  - exists cs. fold r in Hs, Ha, Hf, Ho, Hr.
    repeat (split; [assumption |]). split; [intros _; exact Hr | exact Ho].
Qed.

(** X3. The commands of an [AllowContext] call are all about the key of
    the client. [ZCard] is sent exactly when the prune succeeded.
    [ZAdd] is sent exactly when the call returns true, and then
    [Expire(key, window + 1s)] follows it as the last command, whatever
    [ZAdd] answered. The call sends two to four commands. *)
Theorem AllowContext_commands c ctx k w :
  let key := prefixKey c (getHashedKey k) in
  let r := AllowContext c ctx k w in
  exists cs,
    sent w (snd r) cs /\
    Forall (fun call => call_key call = key) cs /\
    (2 <= length cs <= 4)%nat /\
    (exists prune rest,
       cs = prune :: rest /\
       ((exists key' rc rest', rest = CallZCard key' rc :: rest') <->
        call_err prune = None)) /\
    (existsb is_ZAdd cs = fst r) /\
    (fst r = true ->
     exists pre z ra re,
       cs = (pre ++ [CallZAdd key z ra; CallExpire key (dadd (window c) Second) re])%list /\
       existsb is_ZAdd pre = false).
Proof.
  intros key r.
  destruct (AllowContext_cases c ctx k w) as
    [_ [(rp & rc & Hs & Hp & Hc & _ & Hr & _)
       | (checks & ra & re & Hs & Hr & _ & Hchecks)]];
    fold key r in Hs, Hr; eexists; (split; [exact Hs |]).
  - split; [repeat constructor |]. split; [cbn; lia |].
    split; [eexists _, _; split; [reflexivity |]; cbn; split; eauto |].
    rewrite Hr. split; [reflexivity | discriminate].
  - rewrite Hr.
    destruct Hchecks as [(rp & -> & Hp) | (rp & rc & -> & Hp & _)]; cbn [app].
    + split; [repeat constructor |]. split; [cbn; lia |].
      split.
      { eexists _, _. split; [reflexivity |]. cbn. split.
        - intros (? & ? & ? & Heq). discriminate.
        - intros Hn. congruence. }
      split; [reflexivity |]. intros _.
      eexists [_], _, _, _. split; reflexivity.
    + split; [repeat constructor |]. split; [cbn; lia |].
      split; [eexists _, _; split; [reflexivity |]; cbn; split; eauto |].
      split; [reflexivity |]. intros _.
      eexists [_; _], _, _, _. split; reflexivity.
Qed.

(** X4. Tracing of an [AllowContext] call: when the context is nil or
    carries no parent span, as the background context of [Allow] does,
    no span is recorded; when it carries one, the call records one span
    for each command it sent, in the order of the commands, named after
    the command, child of that parent, tagged with the group, [max_hits]
    and the window, and marked as failed exactly when the command was
    answered with an error. *)
Theorem AllowContext_spans c ctx k w :
  (exists cs,
     sent w (snd (AllowContext c ctx k w)) cs /\
     spans (snd (AllowContext c ctx k w)) =
       (spans w ++
        match ctx_parent ctx with
        | Some parent =>
            map (fun call =>
                   mkSpan (span_name_of call) parent "skipper" "client"
                          (group c) (maxHits c) (window c) (is_err (call_err call))) cs
        | None => []
        end)%list) /\
  spans (snd (Allow c k w)) = spans w.
Proof.
  split.
  - destruct (AllowContext_effects c ctx k w) as (cs & Hs & _ & Hsp & _).
    exists cs. split; [exact Hs | exact Hsp].
  - destruct (AllowContext_effects c Background k w) as (cs & _ & _ & Hsp & _).
    unfold Allow. rewrite Hsp. cbn. apply app_nil_r.
Qed.

End AllowEffects.

Section QueryEffects.
Context {E : Type} `{Host E} `{Externals}.
Implicit Types (c : clusterLimitRedis) (ctx : Context) (w : World E).

#[local] Arguments measureQuery : simpl never.

(** What [oldest] sends and leaves behind. *)
Lemma oldest_effects c ctx k w :
  let key := prefixKey c (getHashedKey k) in
  let q := host_ZRangeByScoreWithScores ctx key (oldest_query (next_reading w))
             (snd (host_Now (host w))) in
  let call := CallZRangeByScoreWithScores key (oldest_query (next_reading w)) (fst q) in
  let r := oldest c ctx k w in
  sent w (snd r) [call] /\
  host (snd r) = snd q /\
  spans (snd r) =
    (spans w ++ match ctx_parent ctx with
                | Some parent => [span_for c parent call (is_err (snd (fst r)))]
                | None => []
                end)%list.
Proof.
  intros key q call r. subst r call q.
  unfold oldest, next_reading, oldest_query, sent, startSpan, ctx_parent. unfold_m.
  fold key.
  destruct (host_Now (host w)) as [now h1]. cbn [fst snd].
  destruct (host_ZRangeByScoreWithScores ctx key _ h1) as [res h2] eqn:Hq.
  destruct res as [[| [sc [| s | n | f]] zs] [e |]]; cbn [zs_val zs_err].
  all: split_ctx ctx; cbn; rewrite Hq; cbn.
  all: try (destruct (ParseInt s) as [n [e |]]; cbn).
  all: rewrite ?app_nil_r; repeat split; reflexivity.
Qed.

Lemma deltaFrom_world c ctx k (from : Time) w :
  snd (deltaFrom c ctx k from w) = snd (oldest c ctx k w) /\
  is_err (snd (fst (deltaFrom c ctx k from w))) = is_err (snd (fst (oldest c ctx k w))).
Proof.
  rewrite deltaFrom_eq. cbn [fst snd].
  destruct (snd (fst (oldest c ctx k w))); split; reflexivity.
Qed.

Lemma RetryAfterContext_world c ctx k w :
  let r := deltaFrom c ctx k (next_reading w) (snd (time_Now w)) in
  host (snd (RetryAfterContext c ctx k w)) = host (snd r) /\
  spans (snd (RetryAfterContext c ctx k w)) = spans (snd r).
Proof.
  unfold RetryAfterContext, RetryAfterContext_body, next_reading, time_Now.
  unfold mbind, M_bind, mret, M_ret.
  destruct (host_Now (host w)) as [now h]; cbn [fst snd].
  destruct (deltaFrom c ctx k now _) as [[d [e |]] w']; cbn [fst snd is_err].
  - unfold Logf. rewrite measureQuery_retryafter. cbn. auto.
  - destruct (0 <? ddiv d Second)%Z; rewrite measureQuery_retryafter; cbn; auto.
Qed.

Lemma Delta_world c k w :
  let r := deltaFrom c Background k (next_reading w) (snd (time_Now w)) in
  host (snd (Delta c k w)) = host (snd r) /\
  spans (snd (Delta c k w)) = spans (snd r).
Proof.
  unfold Delta, next_reading. unfold_m.
  destruct (host_Now (host w)) as [now h]; cbn [fst snd].
  destruct (deltaFrom c Background k now _) as [[d [e |]] w']; cbn; auto.
Qed.

Lemma Oldest_world c k w :
  let r := oldest c Background k w in
  host (snd (Oldest c k w)) = host (snd r) /\
  spans (snd (Oldest c k w)) = spans (snd r).
Proof.
  unfold Oldest. unfold_m.
  destruct (oldest c Background k w) as [[t [e |]] w']; cbn; auto.
Qed.

Lemma time_Now_world w :
  host (snd (time_Now w)) = snd (host_Now (host w)) /\
  spans (snd (time_Now w)) = spans w /\
  calls (snd (time_Now w)) = calls w.
Proof. unfold time_Now. destruct (host_Now (host w)); cbn; auto. Qed.

(** X5. The read operations send one command and no more: a
    [ZRangeByScoreWithScores] on the key of the client, from ["0.0"] to
    the instant of the clock, offset 0, count 1; they never send a
    command that writes. [Oldest] bounds the query by the instant it
    reads; [Delta] and [RetryAfterContext] read the clock twice, the
    first reading being the reference instant and the second, read by
    [oldest], the bound of the query. *)
Theorem read_operations_query c ctx k w :
  let key := prefixKey c (getHashedKey k) in
  let later := next_reading (snd (time_Now w)) in
  (exists res, sent w (snd (Oldest c k w))
                 [CallZRangeByScoreWithScores key (oldest_query (next_reading w)) res]) /\
  (exists res, sent w (snd (Delta c k w))
                 [CallZRangeByScoreWithScores key (oldest_query later) res]) /\
  (exists res, sent w (snd (RetryAfterContext c ctx k w))
                 [CallZRangeByScoreWithScores key (oldest_query later) res]) /\
  (forall cs, sent w (snd (RetryAfterContext c ctx k w)) cs \/
              sent w (snd (Delta c k w)) cs \/ sent w (snd (Oldest c k w)) cs ->
              Forall (fun call => is_write call = false) cs).
Proof.
  intros key later.
  assert (HO : exists res, sent w (snd (Oldest c k w))
                 [CallZRangeByScoreWithScores key (oldest_query (next_reading w)) res]).
  { destruct (oldest_effects c Background k w) as (Hs & _).
    eexists. unfold sent in *. destruct (Oldest_eq c k w) as (_ & -> & _). exact Hs. }
  assert (HD : exists res, sent w (snd (Delta c k w))
                 [CallZRangeByScoreWithScores key (oldest_query later) res]).
  { destruct (oldest_effects c Background k (snd (time_Now w))) as (Hs & _).
    eexists. unfold sent in *. destruct (Delta_eq c k w) as (_ & -> & _).
    destruct (deltaFrom_world c Background k (next_reading w) (snd (time_Now w))) as (-> & _).
    destruct (time_Now_world w) as (_ & _ & Hc). rewrite <- Hc. exact Hs. }
  assert (HR : exists res, sent w (snd (RetryAfterContext c ctx k w))
                 [CallZRangeByScoreWithScores key (oldest_query later) res]).
  { destruct (oldest_effects c ctx k (snd (time_Now w))) as (Hs & _).
    eexists. unfold sent in *. destruct (RetryAfterContext_eq c ctx k w) as (_ & -> & _).
    destruct (deltaFrom_world c ctx k (next_reading w) (snd (time_Now w))) as (-> & _).
    destruct (time_Now_world w) as (_ & _ & Hc). rewrite <- Hc. exact Hs. }
  split; [exact HO |]. split; [exact HD |]. split; [exact HR |].
  intros cs [Hs | [Hs | Hs]];
    [destruct HR as (res & Hs') | destruct HD as (res & Hs') | destruct HO as (res & Hs')];
    unfold sent in *; rewrite Hs in Hs'; apply app_inv_head in Hs'; subst cs;
    repeat constructor.
Qed.

(** X6. Tracing and timing of [RetryAfterContext]: it records exactly
    one timer, under the [retryafter] key of its group, started at the
    first instant it read, and, when the context carries a parent span,
    exactly one span, named [redis_oldest_score]. Timer and span are
    marked as failed together, exactly when the query was answered with
    an error or its first member is malformed; an empty bucket is a
    success. Without a parent span no span is recorded. *)
Theorem RetryAfterContext_timer_and_span c ctx k w res :
  asked (RetryAfterContext c ctx k) w res ->
  let outcome (failed : bool) :=
    timers (snd (RetryAfterContext c ctx k w)) =
      (timers w ++ [(timer_key c "retryafter" (if failed then "failure" else "success"),
                     next_reading w)])%list /\
    spans (snd (RetryAfterContext c ctx k w)) =
      (spans w ++ match ctx_parent ctx with
                  | Some parent =>
                      [mkSpan oldestScoreSpanName parent "skipper" "client"
                              (group c) (maxHits c) (window c) failed]
                  | None => []
                  end)%list in
  (reply_failed res \/ reply_malformed res -> outcome true) /\
  (reply_empty res \/ (exists n, reply_oldest res n) -> outcome false).
Proof.
  intros Hask outcome. apply RetryAfterContext_asked in Hask.
  destruct (deltaFrom_by_reply _ _ _ _ _ _ Hask) as (Hbad & Hempty & Hold).
  set (w1 := snd (time_Now w)) in *.
  assert (Hout : outcome (is_err (snd (fst (deltaFrom c ctx k (next_reading w) w1))))).
  { subst outcome. cbv beta.
    destruct (RetryAfterContext_eq c ctx k w) as (_ & _ & _ & ->).
    destruct (RetryAfterContext_world c ctx k w) as (_ & ->).
    fold w1.
    destruct (deltaFrom_run c ctx k (next_reading w) w1) as (_ & _ & _ & -> & _).
    destruct (deltaFrom_world c ctx k (next_reading w) w1) as (-> & ->).
    destruct (oldest_effects c ctx k w1) as (_ & _ & ->).
    subst w1. destruct (time_Now_frame w) as (_ & _ & ->).
    destruct (time_Now_world w) as (_ & -> & _).
    split; [unfold label; reflexivity |].
    destruct (ctx_parent ctx); reflexivity. }
  split.
  - intros Hb. destruct (Hbad Hb) as [_ Herr].
    destruct (snd (fst (deltaFrom c ctx k (next_reading w) w1))); [exact Hout | congruence].
  - intros [He | [n Ho]].
    + rewrite (Hempty He) in Hout. exact Hout.
    + rewrite (Hold _ Ho) in Hout. exact Hout.
Qed.

(** X7. [RetryAfterContext] is bounded by the window: when the oldest
    retained entry is not later than the reference instant and the
    window is not negative, the result is at most the whole seconds of
    the window plus one; and it is 1 as soon as that entry is older
    than the window less one second. *)
Theorem RetryAfterContext_bounded c ctx k w res (oldest_ns : Z) :
  asked (RetryAfterContext c ctx k) w res ->
  reply_oldest res oldest_ns ->
  0 <= window c <= maxDuration ->
  oldest_ns <= next_reading w ->
  1 <= fst (RetryAfterContext c ctx k w) <= window c / Second + 1 /\
  (window c - Second < next_reading w - oldest_ns ->
   fst (RetryAfterContext c ctx k w) = 1).
Proof.
  intros Hask Hold Hw Hpast. apply RetryAfterContext_asked in Hask.
  destruct (deltaFrom_by_reply _ _ _ _ _ _ Hask) as (_ & _ & Ho).
  destruct (RetryAfterContext_eq c ctx k w) as (-> & _).
  rewrite (Ho _ Hold). cbn [fst snd]. unfold Unix0.
  set (gap := Sub (next_reading w) oldest_ns).
  assert (Hgap : 0 <= gap <= maxDuration /\
                 (next_reading w - oldest_ns <= maxDuration -> gap = next_reading w - oldest_ns)).
  { subst gap. unfold Sub, maxDuration, minDuration, maxInt64, minInt64 in *.
    repeat case_match; lia. }
  destruct Hgap as [Hg Hexact].
  assert (Hd : dsub (window c) gap = window c - gap).
  { apply wrap64_id. unfold in_int64, maxDuration, minInt64, maxInt64 in *. lia. }
  rewrite Hd.
  rewrite retry_seconds by (unfold in_int64, maxDuration, minInt64, maxInt64 in *; lia).
  unfold Second in *.
  pose proof (Z.div_le_mono (window c - gap) (window c) 1000000000 ltac:(lia) ltac:(lia)).
  pose proof (Z.div_pos (window c) 1000000000 ltac:(lia) ltac:(lia)).
  split.
  - destruct (Z.ltb_spec 0 ((window c - gap) / 1000000000)); lia.
  - intros Hlate.
    assert (window c - gap < 1000000000).
    { destruct (Z_le_gt_dec (next_reading w - oldest_ns) maxDuration) as [Hle | Hgt].
      - rewrite (Hexact Hle). lia.
      - assert (gap = maxDuration)
          by (subst gap; unfold Sub, maxDuration, minDuration, maxInt64, minInt64 in *;
              repeat case_match; lia).
        unfold maxDuration, maxInt64 in *. lia. }
    destruct (Z.ltb_spec 0 ((window c - gap) / 1000000000)) as [Hpos | _]; [| reflexivity].
    pose proof (Z.div_lt_upper_bound (window c - gap) 1000000000 1 ltac:(lia) ltac:(lia)).
    lia.
Qed.

End QueryEffects.

Section Chain.
Context {E : Type} `{Host E} `{Externals}.
Implicit Types (c : clusterLimitRedis) (ctx : Context) (w : World E).

#[local] Arguments measureQuery : simpl never.

(** How an [AllowContext] call moves the world outside, by the answers
    to the prune and to the count. *)
Lemma AllowContext_chain c ctx k w :
  let key := prefixKey c (getHashedKey k) in
  let now := next_reading w in
  let p := host_ZRemRangeByScore ctx key "0.0"
             (Sprint_float64 (float64_of_int64 (UnixNano (Add now (dneg (window c))))))
             (snd (host_Now (host w))) in
  let q := host_ZCard ctx key (snd p) in
  let r := AllowContext c ctx k w in
  if is_err (int_err (fst p)) then
    fst r = true /\ add_then_expire c ctx key now (snd p) (host (snd r))
  else if is_err (int_err (fst q)) || (int_val (fst q) <? maxHits c)%Z then
    fst r = true /\ add_then_expire c ctx key now (snd q) (host (snd r))
  else
    fst r = false /\ host (snd r) = snd q.
Proof.
  intros key now p q r. subst r q p.
  unfold AllowContext, AllowContext_body, allowCheckCard, next_reading, startSpan,
    add_then_expire in *.
  fold key. subst now.
  unfold mbind, M_bind, mret, M_ret, time_Now, ring_ZRemRangeByScore, ring_ZCard,
    ring_ZAdd, ring_Expire, with_host.
  cbn [IncCounter fst snd host calls].
  destruct (host_Now (host w)) as [now h1]. cbn [fst snd].
  split_ctx ctx; cbn.
  all: destruct (host_ZRemRangeByScore _ key _ _ h1) as [[vp [ep |]] h2] eqn:Hp; cbn.
  all: repeat match goal with
         | |- context [host_ZCard ?a ?b ?h] =>
             destruct (host_ZCard a b h) as [[? [? |]] ?] eqn:?; cbn
         | |- context [host_ZAdd ?a ?b ?z ?h] =>
             destruct (host_ZAdd a b z h) as [[? [? |]] ?] eqn:?; cbn
         | |- context [host_Expire ?a ?b ?d ?h] =>
             destruct (host_Expire a b d h) as [[? [? |]] ?] eqn:?; cbn
         | |- context [(?a <=? ?b)%Z] => destruct (Z.leb_spec a b); cbn
         end.
  all: rewrite ?measureQuery_allow; cbn.
  all: repeat match goal with
         | |- context [(?a <? ?b)%Z] => destruct (Z.ltb_spec a b); cbn; try lia
         end.
  all: split; [reflexivity |]; try reflexivity.
  all: repeat match goal with
         | Heq : (_, _) = (_, _) |- _ => inversion Heq; clear Heq; subst
         end.
  all: eexists _, _, _; (split; [reflexivity |]); eassumption.
Qed.

End Chain.

Section SimStore.
Context `{Externals}.
Variable parseScore : string -> option float64.

Lemma pop_fault_same (s : Sim.State) :
  Sim.store (snd (Sim.pop_fault s)) = Sim.store s /\
  Sim.clock (snd (Sim.pop_fault s)) = Sim.clock s.
Proof. unfold Sim.pop_fault. destruct (Sim.faults s); split; reflexivity. Qed.

Lemma put_entries_other (s : Sim.State) (key key' : string) es :
  key' <> key -> Sim.put_entries s key es !! key' = Sim.store s !! key'.
Proof.
  intros Hne. unfold Sim.put_entries. destruct es.
  - apply lookup_delete_ne. congruence.
  - apply lookup_insert_ne. congruence.
Qed.

Lemma entries_of_pop (s : Sim.State) key :
  Sim.entries_of (snd (Sim.pop_fault s)) key = Sim.entries_of s key.
Proof. unfold Sim.entries_of. destruct (pop_fault_same s) as [-> _]. reflexivity. Qed.

Lemma Sim_ZRem_other ctx (key key' min max : string) (s : Sim.State) :
  key' <> key ->
  Sim.store (snd (Sim.ZRemRangeByScore parseScore ctx key min max s)) !! key'
  = Sim.store s !! key'.
Proof.
  intros Hne. unfold Sim.ZRemRangeByScore.
  destruct (pop_fault_same s) as [Hst _].
  destruct (Sim.pop_fault s) as [[e |] s1]; cbn in *; [rewrite Hst; reflexivity |].
  destruct (parseScore min), (parseScore max); cbn; rewrite <- ?Hst; try reflexivity.
  apply put_entries_other, Hne.
Qed.

Lemma Sim_ZCard_store ctx (key : string) (s : Sim.State) :
  Sim.store (snd (Sim.ZCard ctx key s)) = Sim.store s.
Proof.
  unfold Sim.ZCard. destruct (pop_fault_same s) as [Hst _].
  destruct (Sim.pop_fault s) as [[e |] s1]; cbn in *; exact Hst.
Qed.

Lemma Sim_ZAdd_other ctx (key key' : string) z (s : Sim.State) :
  key' <> key ->
  Sim.store (snd (Sim.ZAdd ctx key z s)) !! key' = Sim.store s !! key'.
Proof.
  intros Hne. unfold Sim.ZAdd. destruct (pop_fault_same s) as [Hst _].
  destruct (Sim.pop_fault s) as [[e |] s1]; cbn in *; [rewrite Hst; reflexivity |].
  rewrite <- Hst. apply put_entries_other, Hne.
Qed.

Lemma Sim_Expire_other ctx (key key' : string) d (s : Sim.State) :
  key' <> key ->
  Sim.store (snd (Sim.Expire ctx key d s)) !! key' = Sim.store s !! key'.
Proof.
  intros Hne. unfold Sim.Expire. destruct (pop_fault_same s) as [Hst _].
  destruct (Sim.pop_fault s) as [[e |] s1]; cbn in *; [rewrite Hst; reflexivity |].
  rewrite <- Hst. destruct (Sim.store s1 !! key); cbn; [| reflexivity].
  apply lookup_insert_ne. congruence.
Qed.

Lemma Sim_ZRange_store ctx (key : string) opt (s : Sim.State) :
  Sim.store (snd (Sim.ZRangeByScoreWithScores parseScore ctx key opt s)) = Sim.store s.
Proof.
  unfold Sim.ZRangeByScoreWithScores. destruct (pop_fault_same s) as [Hst _].
  destruct (Sim.pop_fault s) as [[e |] s1]; cbn in *; [exact Hst |].
  destruct (parseScore (Min opt)), (parseScore (Max opt)); exact Hst.
Qed.

(** The prune never makes the bucket longer. *)
Lemma Sim_ZRem_length ctx (key min max : string) (s : Sim.State) :
  (length (Sim.entries_of (snd (Sim.ZRemRangeByScore parseScore ctx key min max s)) key)
   <= length (Sim.entries_of s key))%nat.
Proof.
  unfold Sim.ZRemRangeByScore.
  pose proof (entries_of_pop s key) as Hen.
  destruct (Sim.pop_fault s) as [[e |] s1]; cbn in *; [rewrite Hen; lia |].
  destruct (parseScore min) as [lo |], (parseScore max) as [hi |]; cbn;
    try (rewrite Hen; lia).
  rewrite <- Hen.
  set (kept := filter _ _).
  assert (Hk : (length kept <= length (Sim.entries_of s1 key))%nat)
    by apply length_filter.
  unfold Sim.entries_of at 1. cbn. unfold Sim.put_entries.
  destruct kept; [rewrite lookup_delete_eq; cbn; lia |].
  rewrite lookup_insert_eq. cbn. exact Hk.
Qed.

Lemma Sim_ZCard_val ctx (key : string) (s : Sim.State) :
  int_err (fst (Sim.ZCard ctx key s)) = None ->
  int_val (fst (Sim.ZCard ctx key s)) = Z.of_nat (length (Sim.entries_of s key)).
Proof.
  unfold Sim.ZCard. pose proof (entries_of_pop s key) as Hen.
  destruct (Sim.pop_fault s) as [[e |] s1]; cbn in *; [discriminate |].
  rewrite Hen. reflexivity.
Qed.

End SimStore.

Section SimClaims.
Context `{Externals}.
Variable parseScore : string -> option float64.

Lemma Sim_add_then_expire_other c ctx (key key' : string) now (h final : Sim.State) :
  key' <> key ->
  @add_then_expire _ (Sim.sim_host parseScore) c ctx key now h final ->
  Sim.store final !! key' = Sim.store h !! key'.
Proof.
  intros Hne (ra & h' & re & Ha & He). cbn in Ha, He.
  pose proof (Sim_Expire_other ctx key key' (dadd (window c) Second) h' Hne) as H1.
  pose proof (Sim_ZAdd_other ctx key key'
                (mkZ (float64_of_int64 (UnixNano now)) (AnyInt64 (UnixNano now))) h Hne) as H2.
  rewrite He in H1. rewrite Ha in H2. cbn in H1, H2. congruence.
Qed.

(** X8. On the reference ring an [AllowContext] call touches the bucket
    of its own key only: the bucket of every other key of the store,
    members, scores and TTL, is after the call what it was before,
    whatever the call returned and whichever commands failed. *)
Theorem Allow_leaves_other_keys c ctx k (w : World Sim.State) (key' : string) :
  key' <> prefixKey c (getHashedKey k) ->
  Sim.store (host (snd (@AllowContext _ (Sim.sim_host parseScore) _ c ctx k w))) !! key'
  = Sim.store (host w) !! key'.
Proof.
  intros Hne.
  pose proof (@AllowContext_chain _ (Sim.sim_host parseScore) _ c ctx k w) as Hch. cbv zeta in Hch.
  set (key := prefixKey c (getHashedKey k)) in *.
  set (r := @AllowContext _ (Sim.sim_host parseScore) _ c ctx k w) in *.
  set (p := host_ZRemRangeByScore ctx key _ _ _) in Hch.
  set (q := host_ZCard ctx key (snd p)) in Hch.
  assert (Hp : Sim.store (snd p) !! key' = Sim.store (host w) !! key').
  { subst p. cbn. rewrite Sim_ZRem_other by exact Hne. reflexivity. }
  assert (Hq : Sim.store (snd q) !! key' = Sim.store (host w) !! key').
  { subst q. cbn. rewrite Sim_ZCard_store. exact Hp. }
  destruct (is_err (int_err (fst p))).
  - destruct Hch as [_ Hch].
    rewrite (Sim_add_then_expire_other _ _ _ _ _ _ _ Hne Hch). exact Hp.
  - destruct (_ || _).
    + destruct Hch as [_ Hch].
      rewrite (Sim_add_then_expire_other _ _ _ _ _ _ _ Hne Hch). exact Hq.
    + destruct Hch as [_ ->]. exact Hq.
Qed.

(** X9. On the reference ring a call is denied only when the bucket
    holds at least [maxHits] members when the call starts: with fewer
    members [AllowContext] returns true, whichever commands fail. *)
Theorem Allow_when_bucket_short c ctx k (w : World Sim.State) :
  Z.of_nat (length (Sim.entries_of (host w) (prefixKey c (getHashedKey k)))) < maxHits c ->
  fst (@AllowContext _ (Sim.sim_host parseScore) _ c ctx k w) = true.
Proof.
  intros Hshort.
  pose proof (@AllowContext_chain _ (Sim.sim_host parseScore) _ c ctx k w) as Hch. cbv zeta in Hch.
  set (key := prefixKey c (getHashedKey k)) in *.
  set (r := @AllowContext _ (Sim.sim_host parseScore) _ c ctx k w) in *.
  set (p := host_ZRemRangeByScore ctx key _ _ _) in Hch.
  set (q := host_ZCard ctx key (snd p)) in Hch.
  destruct (is_err (int_err (fst p))); [apply Hch |].
  destruct (is_err (int_err (fst q))) eqn:Hqe; [apply Hch |].
  destruct (Z.ltb_spec (int_val (fst q)) (maxHits c)) as [Hlt | Hge]; [apply Hch |].
  exfalso. cbn [orb] in Hch.
  assert (Hv : int_val (fst q) = Z.of_nat (length (Sim.entries_of (snd p) key))).
  { subst q. cbn. apply Sim_ZCard_val.
    cbn in Hqe. destruct (int_err _); [discriminate | reflexivity]. }
  assert (Hl : (length (Sim.entries_of (snd p) key)
                <= length (Sim.entries_of (host w) key))%nat).
  { subst p. cbn. etransitivity; [apply Sim_ZRem_length |].
    unfold Sim.entries_of, Sim.Now. cbn. lia. }
  lia.
Qed.

(** X10. On the reference ring the read operations change nothing in the
    store: after [Oldest], [Delta] or [RetryAfterContext] every bucket
    holds the members, scores and TTL it held before. *)
Theorem reads_leave_store c ctx k (w : World Sim.State) :
  Sim.store (host (snd (@Oldest _ (Sim.sim_host parseScore) _ c k w))) = Sim.store (host w) /\
  Sim.store (host (snd (@Delta _ (Sim.sim_host parseScore) _ c k w))) = Sim.store (host w) /\
  Sim.store (host (snd (@RetryAfterContext _ (Sim.sim_host parseScore) _ c ctx k w))) = Sim.store (host w).
Proof.
  assert (Hold : forall ctx' w', Sim.store (host (snd (@oldest _ (Sim.sim_host parseScore) _ c ctx' k w')))
                                 = Sim.store (host w')).
  { intros ctx' w'. destruct (@oldest_effects _ (Sim.sim_host parseScore) _ c ctx' k w') as (_ & -> & _).
    cbn. rewrite Sim_ZRange_store. reflexivity. }
  assert (Hnow : Sim.store (host (snd (@time_Now _ (Sim.sim_host parseScore) w))) = Sim.store (host w))
    by reflexivity.
  split; [| split].
  - destruct (@Oldest_world _ (Sim.sim_host parseScore) _ c k w) as (-> & _). apply Hold.
  - destruct (@Delta_world _ (Sim.sim_host parseScore) _ c k w) as (-> & _).
    destruct (@deltaFrom_world _ (Sim.sim_host parseScore) _ c Background k (@next_reading _ (Sim.sim_host parseScore) w)
                (snd (@time_Now _ (Sim.sim_host parseScore) w)))
      as (-> & _).
    rewrite Hold. exact Hnow.
  - destruct (@RetryAfterContext_world _ (Sim.sim_host parseScore) _ c ctx k w) as (-> & _).
    destruct (@deltaFrom_world _ (Sim.sim_host parseScore) _ c ctx k (@next_reading _ (Sim.sim_host parseScore) w)
                (snd (@time_Now _ (Sim.sim_host parseScore) w)))
      as (-> & _).
    rewrite Hold. exact Hnow.
Qed.

End SimClaims.

(* ===================================================================== *)
(** * Decimal text of the members *)
(* ===================================================================== *)

Section Codec.

Lemma digits_of_uint (d : Decimal.uint) : forall acc,
  digits_value (NilEmpty.string_of_uint d) acc = Some (uint_value d acc).
Proof.
  induction d; intros acc; cbn [NilEmpty.string_of_uint digits_value uint_value];
    [reflexivity | ..].
  all: match goal with
       | |- context [digit_val ?a] =>
           let v := eval vm_compute in (digit_val a) in
           change (digit_val a) with v
       end; cbv iota beta.
  all: rewrite IHd; f_equal; f_equal; lia.
Qed.

Lemma uint_value_acc (d : Decimal.uint) : forall p,
  Z.pos (Pos.of_uint_acc d p) = uint_value d (Z.pos p).
Proof.
  induction d; intros p; cbn [Pos.of_uint_acc uint_value]; [reflexivity | ..].
  all: rewrite IHd; f_equal; lia.
Qed.

Lemma uint_value_of_uint (d : Decimal.uint) :
  uint_value d 0 = Z.of_N (Pos.of_uint d).
Proof.
  induction d; cbn [Pos.of_uint uint_value]; [reflexivity | exact IHd | ..].
  all: cbn [Z.of_N]; rewrite uint_value_acc; reflexivity.
Qed.

Lemma uint_value_to_uint (p : positive) : uint_value (Pos.to_uint p) 0 = Z.pos p.
Proof. rewrite uint_value_of_uint, DecimalPos.Unsigned.of_to. reflexivity. Qed.

(** The decimal of a positive number starts with a digit and reads back
    as the number. *)
Lemma unsigned_decimal_pos (p : positive) :
  unsigned_decimal (NilEmpty.string_of_uint (Pos.to_uint p)) = Some (Z.pos p) /\
  exists a s, NilEmpty.string_of_uint (Pos.to_uint p) = String a s /\
              Ascii.eqb a "+" = false /\ Ascii.eqb a "-" = false.
Proof.
  pose proof (DecimalPos.Unsigned.to_uint_nonnil p) as Hnn.
  pose proof (digits_of_uint (Pos.to_uint p) 0) as Hd.
  rewrite uint_value_to_uint in Hd.
  destruct (Pos.to_uint p); [congruence | ..];
    cbn [NilEmpty.string_of_uint] in *.
  all: split; [exact Hd | eexists _, _; split; [reflexivity | split; reflexivity]].
Qed.

(** [FormatInt] writes a signed decimal that denotes the number. *)
Lemma signed_decimal_FormatInt (n : Z) : signed_decimal (Sim.FormatInt n) = Some n.
Proof.
  unfold Sim.FormatInt. destruct n as [| p | p]; [reflexivity | |].
  - cbn [Z.to_int NilEmpty.string_of_int].
    destruct (unsigned_decimal_pos p) as (Hv & a & s & Hs & Hplus & Hminus).
    rewrite Hs in *. unfold signed_decimal. rewrite Hplus, Hminus. exact Hv.
  - cbn [Z.to_int NilEmpty.string_of_int].
    destruct (unsigned_decimal_pos p) as (Hv & _).
    cbn [signed_decimal]. change (Ascii.eqb "-" "+") with false.
    change (Ascii.eqb "-" "-") with true. cbv iota. rewrite Hv. reflexivity.
Qed.

Lemma FormatInt_inj (n m : Z) : Sim.FormatInt n = Sim.FormatInt m -> n = m.
Proof.
  intros Heq. pose proof (signed_decimal_FormatInt n) as Hn.
  rewrite Heq, signed_decimal_FormatInt in Hn. congruence.
Qed.

Lemma decimal_int64_FormatInt (n : Z) :
  in_int64 n -> decimal_int64 (Sim.FormatInt n) = Some n.
Proof.
  intros [Hlo Hhi]. unfold decimal_int64. rewrite signed_decimal_FormatInt.
  destruct (Z.leb_spec minInt64 n), (Z.leb_spec n maxInt64); try lia. reflexivity.
Qed.

(** [ParseInt] reads back what [FormatInt] writes, for every [int64]. *)
Lemma ParseInt_FormatInt (n : Z) :
  in_int64 n -> ParseInt (Sim.FormatInt n) = (n, None).
Proof. intros Hn. apply ParseInt_ok, decimal_int64_FormatInt, Hn. Qed.

End Codec.

Section MemberCodec.
Context {E : Type} `{Host E} `{Externals}.


End MemberCodec.

(* ===================================================================== *)
(** * Construction of the ring and of the limiter *)
(* ===================================================================== *)

Section RingConstruction.

Lemma append_inj_l (p a b : string) : p ++ a = p ++ b -> a = b.
Proof.
  induction p as [| c p IH]; intros Heq; [exact Heq |].
  change (String c (p ++ a) = String c (p ++ b)) in Heq.
  injection Heq as Heq. apply IH, Heq.
Qed.

Lemma shard_name_inj (i j : nat) : shard_name i = shard_name j -> i = j.
Proof.
  unfold shard_name. intros Heq. apply append_inj_l, FormatInt_inj in Heq. lia.
Qed.

Lemma add_shards_lookup (addrs : list string) : forall (idx : nat) (m : gmap string string) (i : nat),
  add_shards idx addrs m !! shard_name i
  = if (i <? idx)%nat then m !! shard_name i
    else match addrs !! (i - idx)%nat with
         | Some a => Some a
         | None => m !! shard_name i
         end.
Proof.
  induction addrs as [| a addrs IH]; intros idx m i; cbn [add_shards].
  - destruct (i <? idx)%nat; [reflexivity |]. rewrite lookup_nil. reflexivity.
  - rewrite IH.
    destruct (Nat.ltb_spec i idx) as [Hlt | Hge].
    + destruct (Nat.ltb_spec i (S idx)); [| lia].
      rewrite lookup_insert_ne; [reflexivity |]. intros Heq%shard_name_inj. lia.
    + destruct (Nat.ltb_spec i (S idx)) as [Hlt | Hge'].
      * assert (i = idx) by lia. subst i. rewrite Nat.sub_diag. cbn [lookup list_lookup].
        rewrite lookup_insert_eq. reflexivity.
      * replace (i - idx)%nat with (S (i - S idx)) by lia. cbn [lookup list_lookup].
        destruct (addrs !! (i - S idx)%nat); [reflexivity |].
        rewrite lookup_insert_ne; [reflexivity |]. intros Heq%shard_name_inj. lia.
Qed.

Lemma add_shards_names (addrs : list string) : forall (idx : nat) (m : gmap string string) name a,
  add_shards idx addrs m !! name = Some a ->
  m !! name = Some a \/ exists i, name = shard_name (idx + i) /\ addrs !! i = Some a.
Proof.
  induction addrs as [| a0 addrs IH]; intros idx m name a; cbn [add_shards]; intros Hl.
  - left. exact Hl.
  - apply IH in Hl as [Hl | (i & -> & Hi)].
    + destruct (decide (name = shard_name idx)) as [-> | Hne].
      * rewrite lookup_insert_eq in Hl. injection Hl as ->.
        right. exists 0%nat. rewrite Nat.add_0_r. split; reflexivity.
      * rewrite lookup_insert_ne in Hl by congruence. left. exact Hl.
    + right. exists (S i). split; [f_equal; lia | exact Hi].
Qed.

Lemma add_shards_size (addrs : list string) : forall (idx : nat) (m : gmap string string),
  (forall j : nat, (idx <= j)%nat -> m !! shard_name j = None) ->
  size (add_shards idx addrs m) = (length addrs + size m)%nat.
Proof.
  induction addrs as [| a addrs IH]; intros idx m Hfresh; cbn [add_shards length].
  - reflexivity.
  - rewrite IH.
    + rewrite map_size_insert_None by (apply Hfresh; lia). lia.
    + intros j Hj. rewrite lookup_insert_ne; [apply Hfresh; lia |].
      intros Heq%shard_name_inj. lia.
Qed.

(** X12. [newRing] makes one shard per address: the shard named
    ["redis" ++ i] is the [i]-th address of the options, no two
    addresses share a name, and the ring has no other shard; the
    remaining options are copied, the pool size being [MaxIdleConns]. *)
Theorem newRing_shards (o : RedisOptions) :
  exists r, new_ring (newRing (Some o)) = Some r /\
    (forall i : nat, opt_Addrs (ring_options r) !! shard_name i = Addrs o !! i) /\
    (forall name a, opt_Addrs (ring_options r) !! name = Some a ->
       exists i : nat, name = shard_name i /\ Addrs o !! i = Some a) /\
    size (opt_Addrs (ring_options r)) = length (Addrs o) /\
    opt_PoolSize (ring_options r) = MaxIdleConns o /\
    opt_MinIdleConns (ring_options r) = MinIdleConns o /\
    opt_ReadTimeout (ring_options r) = ReadTimeout o /\
    opt_WriteTimeout (ring_options r) = WriteTimeout o /\
    opt_PoolTimeout (ring_options r) = PoolTimeout o /\
    ring_tracer r = Tracer o.
Proof.
  eexists. split; [reflexivity |]. cbn.
  assert (Hlk : forall i : nat, add_shards 0 (Addrs o) ∅ !! shard_name i = Addrs o !! i).
  { intros i. rewrite add_shards_lookup. cbn. rewrite Nat.sub_0_r, lookup_empty.
    destruct (Addrs o !! i); reflexivity. }
  assert (Hnm : forall name a, add_shards 0 (Addrs o) ∅ !! name = Some a ->
                  exists i : nat, name = shard_name i /\ Addrs o !! i = Some a).
  { intros name a Hl. apply add_shards_names in Hl as [Hl | Hl]; [| exact Hl].
    rewrite lookup_empty in Hl. discriminate. }
  split; [exact Hlk |]. split; [exact Hnm |].
  split; [| repeat split; reflexivity].
  rewrite add_shards_size.
  - rewrite map_size_empty. lia.
  - intros j _. apply lookup_empty.
Qed.

(** X13. The worker that publishes the pool statistics always waits a
    positive interval: the interval of the options when that is
    positive, one minute otherwise, and then the options of the caller
    hold one minute too, their other fields as they were. Without
    options there is no ring and no worker. *)
Theorem newRing_interval (ro : option RedisOptions) :
  match ro with
  | None => newRing ro = mkNewRing None None None
  | Some o =>
      exists d o',
        new_worker (newRing ro) = Some d /\ new_options (newRing ro) = Some o' /\
        0 < d /\ ConnMetricsInterval o' = d /\
        (0 < ConnMetricsInterval o -> o' = o) /\
        (ConnMetricsInterval o <= 0 -> d = 60 * Second) /\
        Addrs o' = Addrs o /\ ReadTimeout o' = ReadTimeout o /\
        WriteTimeout o' = WriteTimeout o /\ PoolTimeout o' = PoolTimeout o /\
        MinIdleConns o' = MinIdleConns o /\ MaxIdleConns o' = MaxIdleConns o /\
        Tracer o' = Tracer o
  end.
Proof.
  destruct ro as [o |]; [| reflexivity].
  unfold newRing. cbv zeta. cbn [new_worker new_options].
  destruct (Z.leb_spec (ConnMetricsInterval o) 0) as [Hle | Hgt].
  - eexists _, _. split; [reflexivity |]. split; [reflexivity |]. cbn.
    unfold defaultConnMetricsInterval, Second.
    repeat split; try reflexivity; try lia.
  - eexists _, _. split; [reflexivity |]. split; [reflexivity |].
    repeat split; try reflexivity; try lia.
Qed.

End RingConstruction.

Section StatsWorker.

Lemma publish_lookup (s : PoolStats) (g : gmap string float64) :
  publish s g !! "swarm.redis.hits" = Some (float64_of_int64 (Hits s)) /\
  publish s g !! "swarm.redis.idleconns" = Some (float64_of_int64 (IdleConns s)) /\
  publish s g !! "swarm.redis.misses" = Some (float64_of_int64 (Misses s)) /\
  publish s g !! "swarm.redis.staleconns" = Some (float64_of_int64 (StaleConns s)) /\
  publish s g !! "swarm.redis.timeouts" = Some (float64_of_int64 (Timeouts s)) /\
  publish s g !! "swarm.redis.totalconns" = Some (float64_of_int64 (TotalConns s)).
Proof.
  unfold publish, UpdateGauge, redisMetricsPrefix.
  repeat split;
    repeat (first [ rewrite lookup_insert_eq; reflexivity
                  | rewrite lookup_insert_ne by (vm_compute; discriminate) ]).
Qed.

Lemma publish_other (s : PoolStats) (g : gmap string float64) (name : string) :
  ~ In name pool_gauges -> publish s g !! name = g !! name.
Proof.
  intros Hn. unfold publish, UpdateGauge, redisMetricsPrefix.
  repeat (rewrite lookup_insert_ne;
          [| intros <-; apply Hn; vm_compute; tauto]).
  reflexivity.
Qed.

Lemma stats_worker_ticks (ss : list PoolStats) : forall (s : PoolStats) (st : Worker),
  stats_worker (map Tick (ss ++ [s])) st
  = mkWorker (publish s (gauges (stats_worker (map Tick ss) st))) (ring_closed st) false.
Proof.
  induction ss as [| s0 ss IH]; intros s st; cbn [app map stats_worker].
  - reflexivity.
  - rewrite IH. reflexivity.
Qed.

Lemma stats_worker_other (events : list WorkerEvent) : forall (st : Worker) (name : string),
  ~ In name pool_gauges ->
  gauges (stats_worker events st) !! name = gauges st !! name.
Proof.
  induction events as [| [s |] events IH]; intros st name Hn; cbn [stats_worker gauges].
  - reflexivity.
  - rewrite IH by exact Hn. cbn [gauges]. apply publish_other, Hn.
  - reflexivity.
Qed.

(** X14. The worker stops at the first quit signal: it closes the ring
    once and returns, keeping the gauges of the ticks before the
    signal, whatever arrives afterwards; as long as no quit is
    signalled it neither closes the ring nor returns. *)
Theorem stats_worker_quit (ss : list PoolStats) (rest : list WorkerEvent) (st : Worker) :
  stats_worker (map Tick ss ++ Quit :: rest) st
  = mkWorker (gauges (stats_worker (map Tick ss) st)) (S (ring_closed st)) true /\
  ring_closed (stats_worker (map Tick ss) st) = ring_closed st /\
  (ss <> [] -> returned (stats_worker (map Tick ss) st) = false).
Proof.
  revert st. induction ss as [| s ss IH]; intros st; cbn [app map stats_worker].
  - split; [reflexivity |]. split; [reflexivity |]. congruence.
  - destruct (IH (mkWorker (publish s (gauges st)) (ring_closed st) false))
      as (H1 & H2 & H3). cbn [ring_closed] in *.
    split; [exact H1 |]. split; [exact H2 |]. intros _.
    destruct ss as [| s' ss]; [reflexivity |]. apply H3. discriminate.
Qed.

(** X15. After a tick the six gauges [swarm.redis.hits], [.idleconns],
    [.misses], [.staleconns], [.timeouts] and [.totalconns] hold the
    pool statistics of that tick, those of the ticks before being
    overwritten; no run of the worker writes a gauge of another name. *)
Theorem stats_worker_gauges (ss : list PoolStats) (s : PoolStats) (st : Worker) :
  let g := gauges (stats_worker (map Tick (ss ++ [s])) st) in
  g !! "swarm.redis.hits" = Some (float64_of_int64 (Hits s)) /\
  g !! "swarm.redis.idleconns" = Some (float64_of_int64 (IdleConns s)) /\
  g !! "swarm.redis.misses" = Some (float64_of_int64 (Misses s)) /\
  g !! "swarm.redis.staleconns" = Some (float64_of_int64 (StaleConns s)) /\
  g !! "swarm.redis.timeouts" = Some (float64_of_int64 (Timeouts s)) /\
  g !! "swarm.redis.totalconns" = Some (float64_of_int64 (TotalConns s)) /\
  forall (events : list WorkerEvent) (name : string),
    ~ In name pool_gauges ->
    gauges (stats_worker events st) !! name = gauges st !! name.
Proof.
  cbv zeta. rewrite stats_worker_ticks. cbn [gauges].
  destruct (publish_lookup s (gauges (stats_worker (map Tick ss) st)))
    as (H1 & H2 & H3 & H4 & H5 & H6).
  repeat (split; [assumption |]).
  intros events name Hn. apply stats_worker_other, Hn.
Qed.

End StatsWorker.

Section Startup.
Context {E : Type} `{Startup E}.

Lemma ping_retry_spec (n : nat) : forall b : Boot E,
  exists (fails : list error) (ds : list Duration),
    boot_pings (snd (ping_retry n b))
      = (boot_pings b ++ map Some fails ++ [fst (ping_retry n b)])%list /\
    (length fails <= n)%nat /\
    boot_sleeps (snd (ping_retry n b)) = (boot_sleeps b ++ ds)%list /\
    length ds = length fails /\
    boot_logs (snd (ping_retry n b))
      = (boot_logs b ++
         repeat ping_failed_log
           (length fails + (if is_err (fst (ping_retry n b)) then 1 else 0)))%list.
Proof.
  induction n as [| n IH]; intros b; cbn [ping_retry].
  - destruct (host_Ping (boot_host b)) as [[e |] h]; cbn.
    + exists [], []. cbn. rewrite !app_nil_r. repeat split; try reflexivity; try lia.
    + exists [], []. cbn. rewrite !app_nil_r. repeat split; try reflexivity; try lia.
  - destruct (host_Ping (boot_host b)) as [[e |] h]; cbn [boot_host boot_pings boot_sleeps boot_logs].
    + destruct (host_NextBackOff h) as [[d |] h'].
      * match goal with |- context [ping_retry n ?b'] =>
          destruct (IH b') as (fails & ds & Hp & Hn & Hs & Hd & Hl) end.
        cbn [boot_host boot_pings boot_sleeps boot_logs] in *.
        exists (e :: fails), (d :: ds).
        rewrite Hp, Hs, Hl. cbn [map length app repeat Nat.add].
        rewrite <- !app_assoc. cbn [app].
        repeat split; try reflexivity; try lia.
      * cbn. exists [], []. cbn. rewrite !app_nil_r.
        repeat split; try reflexivity; try lia.
    + cbn. exists [], []. cbn. rewrite !app_nil_r. repeat split; try reflexivity; try lia.
Qed.

(** X16. Start-up pings the ring at most eight times: every ping but the
    last has failed, a wait separates two pings, and the limiter is
    returned exactly when the last ping succeeds, with the group, the
    [MaxHits] and the [TimeWindow] it was given and the tracer of the
    ring, or the no-op tracer when the ring has none. After a last ping
    that fails nil is returned. Without a ring nil is returned and
    nothing is pinged. *)
Theorem newClusterRateLimiterRedis_pings (s : Settings) (r : option ring) (group : string)
  (b : Boot E) :
  match r with
  | None => newClusterRateLimiterRedis s r group b = (None, b)
  | Some rg =>
      exists (fails : list error) (last : option error),
        boot_pings (snd (newClusterRateLimiterRedis s r group b))
          = (boot_pings b ++ map Some fails ++ [last])%list /\
        (length fails <= 7)%nat /\
        length (boot_sleeps (snd (newClusterRateLimiterRedis s r group b)))
          = (length (boot_sleeps b) + length fails)%nat /\
        fst (newClusterRateLimiterRedis s r group b)
          = match last with
            | None =>
                Some (mkLimiter group (MaxHits s) (TimeWindow s),
                      match ring_tracer rg with
                      | Some t => RingTracer t
                      | None => NoopTracer
                      end)
            | Some _ => None
            end /\
        boot_logs (snd (newClusterRateLimiterRedis s r group b))
          = (boot_logs b ++
             repeat ping_failed_log (length fails + (if is_err last then 1 else 0)) ++
             [match last with
              | None => (LvlDebug, "Redis ring is reachable")
              | Some _ => (LvlError, "Failed to connect to redis: %v")
              end])%list
  end.
Proof.
  destruct r as [rg |]; [| reflexivity].
  unfold newClusterRateLimiterRedis.
  destruct (ping_retry_spec 7 b) as (fails & ds & Hp & Hn & Hs & Hd & Hl).
  destruct (ping_retry 7 b) as [err b'] eqn:Hrun. cbn [fst snd] in *.
  exists fails, err.
  destruct err as [e |]; cbn [fst snd boot_pings boot_sleeps boot_logs].
  - rewrite Hp, Hs, Hl, length_app, Hd, <- app_assoc. repeat split; try reflexivity. exact Hn.
  - rewrite Hp, Hs, Hl, length_app, Hd, <- app_assoc. repeat split; try reflexivity. exact Hn.
Qed.

End Startup.

(* ===================================================================== *)
(** * Package auth *)
(* ===================================================================== *)

Section GoStrings.

Lemma append_cons (a : ascii) (s t : string) : String a s ++ t = String a (s ++ t).
Proof. reflexivity. Qed.

Lemma append_empty_l (t : string) : EmptyString ++ t = t.
Proof. reflexivity. Qed.

Lemma HasPrefix_append (p t : string) : strings.HasPrefix (p ++ t) p = true.
Proof.
  induction p as [| a p IH]; [destruct t; reflexivity |].
  rewrite append_cons. cbn [strings.HasPrefix]. rewrite Ascii.eqb_refl. exact IH.
Qed.

Lemma HasPrefix_split (p : string) : forall s,
  strings.HasPrefix s p = true -> s = p ++ strings.slice_from (String.length p) s.
Proof.
  induction p as [| a p IH]; intros s Hp.
  - reflexivity.
  - destruct s as [| b s]; [discriminate |]. cbn [strings.HasPrefix] in Hp.
    destruct (Ascii.eqb_spec b a) as [-> |]; [| discriminate].
    rewrite append_cons. cbn [String.length strings.slice_from]. f_equal. apply IH, Hp.
Qed.

Lemma slice_from_append (p t : string) : strings.slice_from (String.length p) (p ++ t) = t.
Proof.
  induction p as [| a p IH]; [reflexivity |].
  rewrite append_cons. cbn [String.length strings.slice_from]. exact IH.
Qed.

End GoStrings.

Section Token.

(** X17. [getToken] accepts exactly the requests whose first
    [Authorization] value starts with ["Bearer "], its case and the
    space included, and returns what follows, which may be empty; every
    other request, one without the header too, gives the empty token
    and false. *)
Theorem getToken_bearer (header : auth.Header) :
  (forall t : string,
     auth.getToken header = (t, true)
     <-> auth.Header_Get header "Authorization" = "Bearer " ++ t) /\
  (snd (auth.getToken header) = false -> fst (auth.getToken header) = EmptyString) /\
  (header !! "Authorization" = None -> auth.getToken header = (EmptyString, false)) /\
  (forall (t : string) (vs : list string),
     auth.getToken (<["Authorization" := ("Bearer " ++ t) :: vs]> header) = (t, true)).
Proof.
  unfold auth.getToken, auth.authHeaderName, auth.authHeaderPrefix. cbv zeta.
  split; [| split; [| split]].
  - intros t. split.
    + destruct (strings.HasPrefix _ _) eqn:Hp; cbn [negb]; [| discriminate].
      intros Heq. injection Heq as <-. apply HasPrefix_split, Hp.
    + intros ->. rewrite HasPrefix_append. cbn [negb].
      rewrite (slice_from_append "Bearer " t). reflexivity.
  - destruct (strings.HasPrefix _ _); cbn; [discriminate | reflexivity].
  - intros Hn. unfold auth.Header_Get. rewrite Hn. reflexivity.
  - intros t vs. unfold auth.Header_Get, auth.Header in *. rewrite lookup_insert_eq.
    rewrite HasPrefix_append. cbn [negb].
    rewrite (slice_from_append "Bearer " t). reflexivity.
Qed.

End Token.

Section Scopes.

Lemma found_in_In (l : string) (right : list string) :
  auth.found_in l right = true <-> In l right.
Proof.
  induction right as [| r right IH]; cbn [auth.found_in In]; [split; [discriminate | tauto] |].
  destruct (String.eqb_spec l r) as [-> | Hne].
  - split; auto.
  - rewrite IH. split; [auto | intros [Heq | Hin]; [congruence | exact Hin]].
Qed.

Lemma intersect_row_In (l : string) (right : list string) :
  auth.intersect_row l right = true <-> In l right.
Proof.
  induction right as [| r right IH]; cbn [auth.intersect_row In]; [split; [discriminate | tauto] |].
  destruct (String.eqb_spec l r) as [-> | Hne].
  - split; auto.
  - rewrite IH. split; [auto | intros [Heq | Hin]; [congruence | exact Hin]].
Qed.

Lemma all_In (left right : list string) :
  auth.all left right = true <-> (forall x, In x left -> In x right).
Proof.
  induction left as [| l left IH]; cbn [auth.all In].
  - split; [intros _ x [] | reflexivity].
  - destruct (auth.found_in l right) eqn:Hf; cbn [negb].
    + apply found_in_In in Hf. rewrite IH. split.
      * intros Hall x [<- | Hin]; [exact Hf | apply Hall, Hin].
      * intros Hall x Hin. apply Hall. right. exact Hin.
    + split; [discriminate |]. intros Hall.
      assert (Hin : In l right) by (apply Hall; left; reflexivity).
      apply found_in_In in Hin. congruence.
Qed.

Lemma intersect_In (left right : list string) :
  auth.intersect left right = true <-> (exists x, In x left /\ In x right).
Proof.
  induction left as [| l left IH]; cbn [auth.intersect In].
  - split; [discriminate | intros (x & [] & _)].
  - destruct (auth.intersect_row l right) eqn:Hf.
    + apply intersect_row_In in Hf. split; [| reflexivity].
      intros _. exists l. split; [left; reflexivity | exact Hf].
    + rewrite IH. split.
      * intros (x & Hl & Hr). exists x. split; [right; exact Hl | exact Hr].
      * intros (x & [<- | Hl] & Hr).
        -- apply intersect_row_In in Hr. congruence.
        -- exists x. split; assumption.
Qed.

(** X18. [all left right] is true exactly when every string of [left]
    occurs in [right], whatever the order and the repetitions; so it is
    true of an empty [left], of a list and itself, and it composes. *)
Theorem all_is_inclusion (left right : list string) :
  (auth.all left right = true <-> (forall x, In x left -> In x right)) /\
  auth.all [] right = true /\
  auth.all left left = true /\
  (forall more : list string,
     auth.all left right = true -> auth.all right more = true ->
     auth.all left more = true) /\
  (forall extra : list string,
     auth.all left right = true -> auth.all left (extra ++ right)%list = true).
Proof.
  split; [apply all_In |]. split; [reflexivity |].
  split; [apply all_In; auto |]. split.
  - intros more H1 H2. rewrite all_In in *. auto.
  - intros extra H1. rewrite all_In in *. intros x Hx. apply in_or_app. right. auto.
Qed.

(** X19. [intersect left right] is true exactly when some string occurs
    in both lists; it does not depend on the order of its arguments, is
    false when one of them is empty, and is implied by [all] for a
    [left] that is not empty. *)
Theorem intersect_is_common_element (left right : list string) :
  (auth.intersect left right = true <-> (exists x, In x left /\ In x right)) /\
  auth.intersect left right = auth.intersect right left /\
  auth.intersect [] right = false /\
  auth.intersect left [] = false /\
  (left <> [] -> auth.all left right = true -> auth.intersect left right = true).
Proof.
  split; [apply intersect_In |]. split; [| split; [reflexivity | split]].
  - destruct (auth.intersect left right) eqn:H1, (auth.intersect right left) eqn:H2;
      try reflexivity.
    + apply intersect_In in H1 as (x & Hl & Hr).
      assert (auth.intersect right left = true) by (apply intersect_In; eauto). congruence.
    + apply intersect_In in H2 as (x & Hl & Hr).
      assert (auth.intersect left right = true) by (apply intersect_In; eauto). congruence.
  - destruct (auth.intersect left []) eqn:H1; [| reflexivity].
    apply intersect_In in H1 as (x & _ & []).
  - intros Hne Hall. apply intersect_In. rewrite all_In in Hall.
    destruct left as [| l left]; [congruence |].
    exists l. split; [left; reflexivity | apply Hall; left; reflexivity].
Qed.

End Scopes.

Section FilterArgs.

Lemma getStrings_loop_spec (args : list any) : forall done : list string,
  (exists ss, args = map AnyString ss /\
              auth.getStrings_loop args done = (Some (done ++ ss)%list, None)) \/
  (auth.getStrings_loop args done = (None, Some auth.ErrInvalidFilterParameters) /\
   exists a, In a args /\ snd (assert_string a) = false).
Proof.
  induction args as [| a args IH]; intros done; cbn [auth.getStrings_loop].
  - left. exists []. rewrite app_nil_r. split; reflexivity.
  - destruct a as [| s | n | f]; cbn [assert_string negb].
    2: { destruct (IH (done ++ [s])%list) as [(ss & -> & Hrun) | (Hrun & a & Hin & Ha)].
         - left. exists (s :: ss). rewrite Hrun, <- app_assoc. split; reflexivity.
         - right. split; [exact Hrun |]. exists a. split; [right; exact Hin | exact Ha]. }
    all: right; split; [reflexivity |]; eexists; split; [left; reflexivity | reflexivity].
Qed.

(** X20. [getStrings] returns the arguments as strings, in their
    order, exactly when every one of them is a string; when one is not
    it returns no slice and [ErrInvalidFilterParameters]. *)
Theorem getStrings_all_or_nothing (args : list any) :
  (forall ss : list string,
     auth.getStrings args = (Some ss, None) <-> args = map AnyString ss) /\
  ((exists a, In a args /\ snd (assert_string a) = false) <->
   auth.getStrings args = (None, Some auth.ErrInvalidFilterParameters)) /\
  (forall ss : list string, auth.getStrings (map AnyString ss) = (Some ss, None)).
Proof.
  unfold auth.getStrings.
  assert (Hmap : forall ss a, In a (map AnyString ss) -> snd (assert_string a) = true).
  { intros ss a Hin. apply in_map_iff in Hin as (s & <- & _). reflexivity. }
  assert (Hinj : forall ss ss' : list string, map AnyString ss = map AnyString ss' -> ss = ss').
  { induction ss as [| s ss IH]; intros [| s' ss'] Heq; try discriminate; [reflexivity |].
    cbn in Heq. injection Heq as -> Heq. f_equal. apply IH, Heq. }
  split; [| split].
  - intros ss. destruct (getStrings_loop_spec args []) as [(ss' & -> & Hrun) | (Hrun & _)].
    + rewrite Hrun. cbn [app]. split.
      * intros Heq. injection Heq as ->. reflexivity.
      * intros Heq%Hinj. subst. reflexivity.
    + rewrite Hrun. split; [discriminate |]. intros ->.
      destruct (getStrings_loop_spec (map AnyString ss) [])
        as [(ss' & _ & Hrun') | (_ & a & Hin & Ha)].
      * rewrite Hrun' in Hrun. discriminate.
      * rewrite (Hmap _ _ Hin) in Ha. discriminate.
  - destruct (getStrings_loop_spec args []) as [(ss' & -> & Hrun) | (Hrun & Hex)].
    + rewrite Hrun. split; [| discriminate].
      intros (a & Hin & Ha). rewrite (Hmap _ _ Hin) in Ha. discriminate.
    + rewrite Hrun. split; [reflexivity | intros _; exact Hex].
  - intros ss. destruct (getStrings_loop_spec (map AnyString ss) [])
      as [(ss' & Heq & Hrun) | (_ & a & Hin & Ha)].
    + apply Hinj in Heq. subst. exact Hrun.
    + rewrite (Hmap _ _ Hin) in Ha. discriminate.
Qed.

End FilterArgs.

Section SplitJoin.

Lemma free_of_append (c : ascii) (s t : string) :
  auth.free_of c (s ++ t) = auth.free_of c s && auth.free_of c t.
Proof.
  induction s as [| a s IH]; [reflexivity |].
  rewrite append_cons. cbn [auth.free_of]. rewrite IH, andb_assoc. reflexivity.
Qed.

Lemma cut_None (c : ascii) (s : string) :
  strings.cut s c = None <-> auth.free_of c s = true.
Proof.
  induction s as [| a s IH]; cbn [strings.cut auth.free_of]; [tauto |].
  destruct (Ascii.eqb a c); cbn [negb andb]; [split; discriminate |].
  destruct (strings.cut s c) as [[b t] |]; [| tauto].
  split; [discriminate |]. intros Hf. apply IH in Hf. discriminate.
Qed.

Lemma cut_append (c : ascii) (b t : string) :
  auth.free_of c b = true -> strings.cut (b ++ String c t) c = Some (b, t).
Proof.
  induction b as [| a b IH]; intros Hf.
  - change (EmptyString ++ String c t) with (String c t).
    cbn [strings.cut]. rewrite Ascii.eqb_refl. reflexivity.
  - rewrite append_cons. cbn [strings.cut auth.free_of] in *.
    apply andb_prop in Hf as [Ha Hf]. destruct (Ascii.eqb a c); [discriminate |].
    rewrite IH by exact Hf. reflexivity.
Qed.

Lemma cut_split (c : ascii) (s : string) : forall b t,
  strings.cut s c = Some (b, t) -> s = b ++ String c t /\ auth.free_of c b = true.
Proof.
  induction s as [| a s IH]; intros b t; cbn [strings.cut]; [discriminate |].
  destruct (Ascii.eqb_spec a c) as [-> | Hne].
  - intros Heq. injection Heq as <- <-. split; reflexivity.
  - destruct (strings.cut s c) as [[b' t'] |]; [| discriminate].
    intros Heq. injection Heq as <- <-.
    destruct (IH b' t' eq_refl) as [-> Hf]. split; [reflexivity |].
    cbn [auth.free_of]. rewrite Hf.
    destruct (Ascii.eqb_spec a c); [congruence | reflexivity].
Qed.

Lemma cut_Some (c : ascii) (s : string) (b t : string) :
  strings.cut s c = Some (b, t) <-> s = b ++ String c t /\ auth.free_of c b = true.
Proof.
  split; [apply cut_split |]. intros [-> Hf]. apply cut_append, Hf.
Qed.

Lemma Split_nonempty (sep : ascii) (s : string) : strings.Split s sep <> [].
Proof.
  destruct s as [| a s]; cbn [strings.Split]; [discriminate |].
  destruct (Ascii.eqb a sep); [discriminate |].
  destruct (strings.Split s sep); discriminate.
Qed.

Lemma Split_free (sep : ascii) (s : string) :
  auth.free_of sep s = true -> strings.Split s sep = [s].
Proof.
  induction s as [| a s IH]; cbn [strings.Split auth.free_of]; [reflexivity |].
  intros [Ha Hf]%andb_prop. destruct (Ascii.eqb a sep); [discriminate |].
  rewrite IH by exact Hf. reflexivity.
Qed.

Lemma Split_append (sep : ascii) (e t : string) :
  auth.free_of sep e = true ->
  strings.Split (e ++ String sep t) sep = e :: strings.Split t sep.
Proof.
  induction e as [| a e IH]; intros Hf.
  - change (EmptyString ++ String sep t) with (String sep t).
    cbn [strings.Split]. rewrite Ascii.eqb_refl. reflexivity.
  - rewrite append_cons. cbn [strings.Split auth.free_of] in *.
    apply andb_prop in Hf as [Ha Hf]. destruct (Ascii.eqb a sep); [discriminate |].
    rewrite IH by exact Hf. reflexivity.
Qed.

Lemma Join_cons (e e' : string) (rest : list string) (sep : string) :
  strings.Join (e :: e' :: rest) sep = e ++ sep ++ strings.Join (e' :: rest) sep.
Proof. reflexivity. Qed.

Lemma Split_Join (sep : ascii) (es : list string) :
  es <> [] -> Forall (fun e => auth.free_of sep e = true) es ->
  strings.Split (strings.Join es (String sep EmptyString)) sep = es.
Proof.
  induction es as [| e es IH]; [congruence |]. intros _ Hall.
  apply Forall_cons in Hall as [He Hall].
  destruct es as [| e' es]; [apply Split_free, He |].
  rewrite Join_cons. change (String sep EmptyString ++ ?t) with (String sep t).
  rewrite Split_append by exact He. f_equal. apply IH; [discriminate | exact Hall].
Qed.

Lemma Join_Split (sep : ascii) (s : string) :
  strings.Join (strings.Split s sep) (String sep EmptyString) = s.
Proof.
  induction s as [| a s IH]; cbn [strings.Split]; [reflexivity |].
  destruct (Ascii.eqb_spec a sep) as [-> | Hne].
  - pose proof (Split_nonempty sep s) as Hn.
    destruct (strings.Split s sep) as [| p ps] eqn:Hs; [congruence |].
    rewrite Join_cons, IH. reflexivity.
  - pose proof (Split_nonempty sep s) as Hn.
    destruct (strings.Split s sep) as [| p ps] eqn:Hs; [congruence |].
    destruct ps as [| p' ps].
    + cbn [strings.Join] in *. congruence.
    + rewrite Join_cons in *. rewrite append_cons. congruence.
Qed.

Lemma Split_pieces_free (sep : ascii) (s : string) :
  Forall (fun e => auth.free_of sep e = true) (strings.Split s sep).
Proof.
  induction s as [| a s IH]; cbn [strings.Split]; [repeat constructor |].
  destruct (Ascii.eqb_spec a sep) as [-> | Hne].
  - constructor; [reflexivity | exact IH].
  - destruct (strings.Split s sep) as [| p ps]; [repeat constructor |].
    + cbn [auth.free_of]. destruct (Ascii.eqb_spec a sep); [congruence | reflexivity].
    + apply Forall_cons in IH as [Hp Hps]. constructor; [| exact Hps].
      cbn [auth.free_of]. rewrite Hp.
      destruct (Ascii.eqb_spec a sep); [congruence | reflexivity].
Qed.

End SplitJoin.

Section UserMask.

Lemma parse_entry_step (entry : string) (rest : list string) (result : list auth.maskOAuthUser) :
  auth.parse_entries (entry :: rest) result
  = match strings.cut entry ":" with
    | Some (r0, r1) =>
        match strings.cut r1 "=" with
        | Some (k, v) =>
            auth.parse_entries rest (result ++ [auth.mkMaskOAuthUser k v r0])%list
        | None => ([], Some (auth.errInvalidOAuthUserFormat entry))
        end
    | None => ([], Some (auth.errInvalidOAuthUserFormat entry))
    end.
Proof.
  cbn [auth.parse_entries]. unfold strings.SplitN2.
  destruct (strings.cut entry ":") as [[r0 r1] |]; [| reflexivity].
  cbn [length Nat.eqb negb nth].
  destruct (strings.cut r1 "=") as [[k v] |]; reflexivity.
Qed.

Lemma cut_mask_entry (u : auth.maskOAuthUser) :
  auth.free_of ":" (auth.replacement u) = true ->
  auth.free_of "=" (auth.key u) = true ->
  strings.cut (auth.mask_entry u) ":"
    = Some (auth.replacement u, auth.key u ++ "=" ++ auth.valuePrefix u) /\
  strings.cut (auth.key u ++ "=" ++ auth.valuePrefix u) "="
    = Some (auth.key u, auth.valuePrefix u).
Proof.
  intros Hr Hk. split; apply cut_Some; (split; [reflexivity | assumption]).
Qed.

Lemma parse_entries_users (users : list auth.maskOAuthUser) : forall result,
  Forall (fun u => auth.free_of ":" (auth.replacement u) = true /\
                   auth.free_of "=" (auth.key u) = true) users ->
  auth.parse_entries (map auth.mask_entry users) result = ((result ++ users)%list, None).
Proof.
  induction users as [| u users IH]; intros result Hall; cbn [map].
  - cbn [auth.parse_entries]. rewrite app_nil_r. reflexivity.
  - apply Forall_cons in Hall as [[Hr Hk] Hall].
    rewrite parse_entry_step.
    destruct (cut_mask_entry u Hr Hk) as [-> ->].
    rewrite IH by exact Hall. rewrite <- app_assoc. destruct u. reflexivity.
Qed.

Lemma parse_entries_spec (entries : list string) : forall result,
  match auth.parse_entries entries result with
  | (res, None) =>
      exists users, res = (result ++ users)%list /\ map auth.mask_entry users = entries /\
        Forall (fun u => auth.free_of ":" (auth.replacement u) = true /\
                         auth.free_of "=" (auth.key u) = true) users /\
        forallb auth.entry_ok entries = true
  | (res, Some e) =>
      res = [] /\
      exists before bad rest, entries = (before ++ bad :: rest)%list /\
        forallb auth.entry_ok before = true /\ auth.entry_ok bad = false /\
        e = auth.errInvalidOAuthUserFormat bad
  end.
Proof.
  induction entries as [| entry entries IH]; intros result.
  - cbn [auth.parse_entries]. exists []. rewrite app_nil_r. repeat split. constructor.
  - rewrite parse_entry_step.
    destruct (strings.cut entry ":") as [[r0 r1] |] eqn:Hc1.
    2: { split; [reflexivity |]. exists [], entry, entries.
         repeat split. unfold auth.entry_ok. rewrite Hc1. reflexivity. }
    destruct (strings.cut r1 "=") as [[k v] |] eqn:Hc2.
    2: { split; [reflexivity |]. exists [], entry, entries.
         repeat split. unfold auth.entry_ok. rewrite Hc1, Hc2. reflexivity. }
    assert (Hok : auth.entry_ok entry = true)
      by (unfold auth.entry_ok; rewrite Hc1, Hc2; reflexivity).
    specialize (IH (result ++ [auth.mkMaskOAuthUser k v r0])%list).
    destruct (auth.parse_entries entries _) as [res [e |]].
    + destruct IH as (-> & before & bad & rest & -> & Hb & Hbad & ->).
      split; [reflexivity |]. exists (entry :: before), bad, rest.
      repeat split; [| exact Hbad]. cbn [forallb]. rewrite Hok, Hb. reflexivity.
    + destruct IH as (users & -> & <- & Hall & Hfa).
      exists (auth.mkMaskOAuthUser k v r0 :: users).
      apply cut_Some in Hc1 as [-> Hf1]. apply cut_Some in Hc2 as [-> Hf2].
      rewrite <- app_assoc. split; [reflexivity |]. split; [reflexivity |]. split.
      * constructor; [split; assumption | exact Hall].
      * cbn [forallb]. rewrite Hok. exact Hfa.
Qed.

(** X21. [ParseMaskOAuthUser] reads back the text of a list of users:
    for users, at least one, whose fields hold no comma, whose
    replacement holds no colon and whose key holds no equals sign, the
    entries [replacement:key=prefix] joined by commas parse to those
    users, in their order, without error. *)
Theorem ParseMaskOAuthUser_reads_config (users : list auth.maskOAuthUser) :
  users <> [] ->
  Forall (fun u => auth.readable u = true) users ->
  auth.ParseMaskOAuthUser (auth.mask_config users) = (users, None).
Proof.
  intros Hne Hall. unfold auth.ParseMaskOAuthUser, auth.mask_config.
  rewrite Split_Join.
  - rewrite parse_entries_users; [reflexivity |].
    eapply Forall_impl; [exact Hall |]. intros u Hu. unfold auth.readable in Hu.
    repeat (apply andb_prop in Hu as [Hu ?]). split; assumption.
  - destruct users; [congruence | discriminate].
  - apply Forall_map. eapply Forall_impl; [exact Hall |]. intros u Hu.
    unfold auth.readable in Hu. repeat (apply andb_prop in Hu as [Hu ?]).
    unfold auth.mask_entry. rewrite !free_of_append.
    repeat (apply andb_true_intro; split); try assumption; reflexivity.
Qed.

(** X22. What [ParseMaskOAuthUser] accepts it has read faithfully: when
    it returns users and no error there is at least one user, the
    entries [replacement:key=prefix] of the users joined by commas are
    the configuration text again, no replacement holds a colon or a
    comma and no key an equals sign or a comma. *)
Theorem ParseMaskOAuthUser_writes_back (config : string) (users : list auth.maskOAuthUser) :
  auth.ParseMaskOAuthUser config = (users, None) ->
  auth.mask_config users = config /\ users <> [] /\
  length users = length (strings.Split config ",") /\
  Forall (fun u => auth.free_of ":" (auth.replacement u) = true /\
                   auth.free_of "," (auth.replacement u) = true /\
                   auth.free_of "=" (auth.key u) = true /\
                   auth.free_of "," (auth.key u) = true /\
                   auth.free_of "," (auth.valuePrefix u) = true) users.
Proof.
  unfold auth.ParseMaskOAuthUser. intros Hrun.
  pose proof (parse_entries_spec (strings.Split config ",") []) as Hs.
  rewrite Hrun in Hs. destruct Hs as (us & Heq & Hmap & Hall & _).
  cbn [app] in Heq. subst us.
  split; [| split; [| split]].
  - unfold auth.mask_config. rewrite Hmap. apply Join_Split.
  - intros ->. cbn in Hmap. symmetry in Hmap. apply Split_nonempty in Hmap. exact Hmap.
  - rewrite <- Hmap, length_map. reflexivity.
  - pose proof (Split_pieces_free "," config) as Hfree. rewrite <- Hmap in Hfree.
    apply Forall_map in Hfree.
    apply Forall_forall. intros u Hu.
    rewrite Forall_forall in Hall, Hfree. specialize (Hall u Hu) as [Hr Hk].
    specialize (Hfree u Hu). cbn beta in Hfree. unfold auth.mask_entry in Hfree.
    rewrite !free_of_append in Hfree.
    rewrite !andb_true_iff in Hfree. destruct Hfree as (H1 & _ & H2 & _ & H3).
    repeat split; assumption.
Qed.

(** X23. [ParseMaskOAuthUser] fails exactly when one of the
    comma-separated entries of the configuration has no colon, or no
    equals sign after its first colon; it then returns no users and the
    error names the first such entry. The empty configuration fails. *)
Theorem ParseMaskOAuthUser_rejects (config : string) :
  (snd (auth.ParseMaskOAuthUser config) = None
   <-> forallb auth.entry_ok (strings.Split config ",") = true) /\
  (snd (auth.ParseMaskOAuthUser config) <> None ->
   fst (auth.ParseMaskOAuthUser config) = [] /\
   exists before bad rest,
     strings.Split config "," = (before ++ bad :: rest)%list /\
     forallb auth.entry_ok before = true /\ auth.entry_ok bad = false /\
     snd (auth.ParseMaskOAuthUser config) = Some (auth.errInvalidOAuthUserFormat bad)) /\
  auth.ParseMaskOAuthUser EmptyString
    = ([], Some (auth.errInvalidOAuthUserFormat EmptyString)).
Proof.
  unfold auth.ParseMaskOAuthUser.
  pose proof (parse_entries_spec (strings.Split config ",") []) as Hs.
  destruct (auth.parse_entries (strings.Split config ",") []) as [res [e |]]; cbn [fst snd].
  - destruct Hs as (-> & before & bad & rest & Heq & Hb & Hbad & ->).
    split; [| split; [| reflexivity]].
    + split; [discriminate |]. rewrite Heq, forallb_app. cbn [forallb].
      rewrite Hbad, andb_false_r. discriminate.
    + intros _. split; [reflexivity |]. exists before, bad, rest. repeat split; assumption.
  - destruct Hs as (users & _ & _ & _ & Hfa).
    split; [| split; [| reflexivity]].
    + split; [intros _; exact Hfa | reflexivity].
    + congruence.
Qed.

End UserMask.

Section Match.

(** X24. [match] decides on the first cache of the state bag that is not
    nil and looks at no later one: it returns the replacement and true
    when that cache holds a string under the key of the user and the
    string starts with the value prefix, the empty string and false
    otherwise, and when every cache is nil. *)
Theorem match_first_cache (m : auth.maskOAuthUser) (n : nat) (am : gmap string any)
  (rest : list (option (gmap string any))) :
  auth.match_ m (repeat None n ++ Some am :: rest)%list = auth.match_ m [Some am] /\
  auth.match_ m (repeat None n) = (EmptyString, false) /\
  (auth.match_ m [Some am] = (auth.replacement m, true) \/
   auth.match_ m [Some am] = (EmptyString, false)) /\
  (snd (auth.match_ m [Some am]) = true <->
   exists value, am !! auth.key m = Some (AnyString value) /\
                 strings.HasPrefix value (auth.valuePrefix m) = true).
Proof.
  split; [| split; [| split]].
  - induction n as [| n IH]; [reflexivity | exact IH].
  - induction n as [| n IH]; [reflexivity | exact IH].
  - cbn [auth.match_].
    destruct (am !! auth.key m) as [[| value | |] |]; cbn [assert_string andb]; auto.
    destruct (strings.HasPrefix value (auth.valuePrefix m)); auto.
  - cbn [auth.match_].
    destruct (am !! auth.key m) as [[| value | |] |]; cbn [assert_string andb snd].
    2: { destruct (strings.HasPrefix value (auth.valuePrefix m)) eqn:Hp; cbn [snd].
         - split; [intros _; exists value; split; [reflexivity | exact Hp] | reflexivity].
         - split; [discriminate |]. intros (v & Hv & Hp'). congruence. }
    all: split; [discriminate |]; intros (v & Hv & _); discriminate.
Qed.

End Match.

(* ===================================================================== *)
(** * The further properties at concrete worlds *)
(* ===================================================================== *)

Section ConcreteEffects.
Import Examples MoreExamples.

#[local] Existing Instance Sim.demo_externals.
#[local] Existing Instance Sim.demo_host.

Lemma RetryAfterContext_timer_and_span_witness :
  asked (demo_RetryAfterContext lim traced "u1") w_garbled reply_garbled /\
  reply_malformed reply_garbled /\
  timers (snd (demo_RetryAfterContext lim traced "u1" w_garbled))
    = [("swarm.redis.query.retryafter.failure.g", T0)] /\
  spans (snd (demo_RetryAfterContext lim traced "u1" w_garbled))
    = [mkSpan "redis_oldest_score" 7 "skipper" "client" "g" 3 (10 * Second) true].
Proof.
  assert (Hm : reply_malformed reply_garbled).
  { split; [reflexivity |]. eexists _, _. split; [reflexivity |]. vm_compute. reflexivity. }
  assert (Ha : asked (demo_RetryAfterContext lim traced "u1") w_garbled reply_garbled)
    by (exists key_u1, (query T0); vm_compute; reflexivity).
  destruct (@RetryAfterContext_timer_and_span _ Sim.demo_host Sim.demo_externals
              lim traced "u1" w_garbled reply_garbled Ha) as [Hbad _].
  destruct (Hbad (or_intror Hm)) as [Ht Hs].
  split; [exact Ha |]. split; [exact Hm |]. split; [exact Ht | exact Hs].
Defined.

Lemma RetryAfterContext_bounded_witness :
  asked (demo_RetryAfterContext lim Background "u1") w_one reply_one /\
  reply_oldest reply_one T0 /\
  1 <= fst (demo_RetryAfterContext lim Background "u1" w_one) <= 11.
Proof.
  assert (Hold : reply_oldest reply_one T0).
  { split; [reflexivity |]. eexists _, _, _.
    split; [reflexivity |]. split; [reflexivity |]. vm_compute. reflexivity. }
  assert (Ha : asked (demo_RetryAfterContext lim Background "u1") w_one reply_one)
    by (exists key_u1, (query (T0 + 3 * Second)); vm_compute; reflexivity).
  split; [exact Ha |]. split; [exact Hold |].
  refine (proj1 (@RetryAfterContext_bounded _ Sim.demo_host Sim.demo_externals
                   lim Background "u1" w_one reply_one T0 Ha Hold _ _)).
  - vm_compute. split; discriminate.
  - vm_compute. discriminate.
Defined.

Lemma Allow_leaves_other_keys_witness :
  key_u2 <> prefixKey lim (getHashedKey "u1") /\
  Sim.store (host (snd (demo_AllowContext lim Background "u1" w_two))) !! key_u2
    = Some (Sim.mkBucket [entry (T0 - Second)] (Some (5 * Second))).
Proof.
  assert (Hne : key_u2 <> prefixKey lim (getHashedKey "u1"))
    by (vm_compute; discriminate).
  split; [exact Hne |].
  transitivity (Sim.store (host w_two) !! key_u2).
  - exact (@Allow_leaves_other_keys Sim.demo_externals Sim.demo_parseScore
             lim Background "u1" w_two key_u2 Hne).
  - vm_compute. reflexivity.
Defined.

Lemma Allow_when_bucket_short_witness :
  Z.of_nat (length (Sim.entries_of (host w_one) (prefixKey lim (getHashedKey "u1"))))
    < maxHits lim /\
  fst (demo_AllowContext lim Background "u1" w_one) = true.
Proof.
  assert (Hs : Z.of_nat (length (Sim.entries_of (host w_one)
                                   (prefixKey lim (getHashedKey "u1")))) < maxHits lim)
    by (vm_compute; reflexivity).
  split; [exact Hs |].
  exact (@Allow_when_bucket_short Sim.demo_externals Sim.demo_parseScore
           lim Background "u1" w_one Hs).
Defined.


Lemma ParseMaskOAuthUser_reads_config_witness :
  auth.ParseMaskOAuthUser "service:uid=svcaccount_,anon:sub="
  = ([service_user; anon_user], None).
Proof.
  apply (ParseMaskOAuthUser_reads_config [service_user; anon_user]).
  - discriminate.
  - repeat constructor.
Defined.

Lemma ParseMaskOAuthUser_writes_back_witness :
  auth.ParseMaskOAuthUser "service:uid=svcaccount_,anon:sub="
    = ([service_user; anon_user], None) /\
  auth.mask_config [service_user; anon_user] = "service:uid=svcaccount_,anon:sub=".
Proof.
  assert (Hrun : auth.ParseMaskOAuthUser "service:uid=svcaccount_,anon:sub="
                 = ([service_user; anon_user], None)) by (vm_compute; reflexivity).
  split; [exact Hrun |].
  exact (proj1 (ParseMaskOAuthUser_writes_back _ _ Hrun)).
Defined.

End ConcreteEffects.
